(** * strumm: SCUMM text extractor -- a shallow embedding of [strumm.py]

    The program walks a SCUMM 5 resource file (a tree of tagged,
    length-prefixed blocks, XOR-obfuscated with a one-byte key), hands every
    script block to the external disassembler [descumm], and collects the
    [Text("...")] operands of its listing, per object or per script.

    Python 2.7 [str] values are byte strings: they are modelled as
    [list ascii].  Python integers are unbounded: they are modelled as [Z].
    Exceptions are modelled by the [Raise] outcome; the two [while] loops and
    the recursion of the walker are bounded by a fuel argument, and running
    out of fuel is the separate outcome [Diverge]. *)

From Stdlib Require Import ZArith List Ascii String Lia.
From stdpp Require Import base decidable list strings gmap.

Open Scope Z_scope.

(** ** Byte strings *)

Abbreviation bytes := (list ascii).

(** A Python string literal. *)
Definition str (s : string) : bytes := list_ascii_of_string s.

(** [ord(x)] and [chr(i)] on 8-bit strings. *)
Definition ord (x : ascii) : Z := Z.of_N (N_of_ascii x).

(** ** Exceptions and outcomes *)

Inductive exn : Type :=
| ScummFileError (msg : bytes)
| WTFError (msg : bytes)
| DescummError (returncode : Z) (stderr : bytes)
| IOError
| OSError
| IndexError
| ValueError
| AttributeError
| AssertionError
| struct_error.

Inductive outcome (A : Type) : Type :=
| Ok (a : A)
| Raise (e : exn)
| Diverge.

Arguments Ok {A} a.
Arguments Raise {A} e.
Arguments Diverge {A}.

Definition bind {A B : Type} (m : outcome A) (k : A -> outcome B) : outcome B :=
  match m with
  | Ok a => k a
  | Raise e => Raise e
  | Diverge => Diverge
  end.

Declare Scope outcome_scope.
Delimit Scope outcome_scope with outcome.
Notation "'let*' p := m 'in' k" := (bind m (fun p => k))
  (at level 10, p pattern, m at level 200, k at level 200) : outcome_scope.
Open Scope outcome_scope.

Definition chr (i : Z) : outcome ascii :=
  if (0 <=? i) && (i <? 256) then Ok (ascii_of_N (Z.to_N i)) else Raise ValueError.

(** [mapM]: the generator expression of [DecryptingStream.read], which
    stops at the first element whose conversion raises. *)
Fixpoint mapM {A B : Type} (f : A -> outcome B) (l : list A) : outcome (list B) :=
  match l with
  | [] => Ok []
  | x :: l' => let* y := f x in let* ys := mapM f l' in Ok (y :: ys)
  end.

(** ** Streams

    [File] is the binary file object returned by [open(..., 'rb')]: its
    contents and its position.  [DecryptingStream] is the class of the
    source; it wraps any object with [read], [seek] and [tell]. *)

Inductive stream : Type :=
| File (data : bytes) (pos : Z)
| DecryptingStream (_stream : stream) (_xor : Z).

Definition SEEK_SET : Z := 0.
Definition SEEK_CUR : Z := 1.
Definition SEEK_END : Z := 2.

Fixpoint tell (s : stream) : Z :=
  match s with
  | File _ pos => pos
  | DecryptingStream _stream _ => tell _stream
  end.

(** [file.seek]: a negative target position is refused by the operating
    system (EINVAL); a position past the end of the file is accepted. *)
Definition file_seek (data : bytes) (pos offset whence : Z) : outcome stream :=
  let target :=
    if whence =? SEEK_SET then Some offset
    else if whence =? SEEK_CUR then Some (pos + offset)
    else if whence =? SEEK_END then Some (Z.of_nat (length data) + offset)
    else None in
  match target with
  | Some p => if p <? 0 then Raise IOError else Ok (File data p)
  | None => Raise IOError
  end.

Fixpoint seek (s : stream) (offset whence : Z) : outcome stream :=
  match s with
  | File data pos => file_seek data pos offset whence
  | DecryptingStream _stream _xor =>
      let* s' := seek _stream offset whence in Ok (DecryptingStream s' _xor)
  end.

(** [file.read(n)]: at most [n] bytes from the position, fewer at the end of
    the file, all the rest when [n] is negative. *)
Definition file_read (data : bytes) (pos n : Z) : bytes * stream :=
  let rest := drop (Z.to_nat pos) data in
  let d := if n <? 0 then rest else take (Z.to_nat n) rest in
  (d, File data (pos + Z.of_nat (length d))).

Fixpoint read (s : stream) (n : Z) : outcome (bytes * stream) :=
  match s with
  | File data pos => Ok (file_read data pos n)
  | DecryptingStream _stream _xor =>
      let* (data, s') := read _stream n in
      let* data := (if _xor =? 0 then Ok data
                    else mapM (fun x => chr (Z.lxor (ord x) _xor)) data) in
      Ok (data, DecryptingStream s' _xor)
  end.

(** ** String helpers of the Python runtime *)

Definition dquote : ascii := "034"%char.
Definition backslash : ascii := "\"%char.
Definition newline : ascii := "010"%char.
Definition NUL : ascii := "000"%char.

(** Comparison of two [str] values: lexicographic on the byte values, a
    proper prefix being smaller. *)
Fixpoint str_le (a b : bytes) : bool :=
  match a, b with
  | [], _ => true
  | _ :: _, [] => false
  | x :: a', y :: b' =>
      if ord x <? ord y then true
      else if ord y <? ord x then false
      else str_le a' b'
  end.

(** [struct.unpack('>I', s)[0]]: exactly four bytes, big-endian. *)
Definition struct_unpack_BE_I (s : bytes) : outcome Z :=
  match s with
  | [b0; b1; b2; b3] => Ok (((ord b0 * 256 + ord b1) * 256 + ord b2) * 256 + ord b3)
  | _ => Raise struct_error
  end.

(** Upper-case hexadecimal digits of a non-negative integer. *)
Definition hex_char (d : Z) : ascii :=
  nth (Z.to_nat d) (str "0123456789ABCDEF") "0"%char.

Fixpoint hex_digits_of (fuel : nat) (n : Z) (acc : bytes) : bytes :=
  match fuel with
  | O => acc
  | S fuel' =>
      let acc := hex_char (n mod 16) :: acc in
      if n / 16 =? 0 then acc else hex_digits_of fuel' (n / 16) acc
  end.

Definition hex_of_abs (n : Z) : bytes :=
  hex_digits_of (S (Z.to_nat (Z.log2 (Z.abs n)))) (Z.abs n) [].

(** ["%X" % n] and ["%08X" % n]. *)
Definition fmt_X (n : Z) : bytes :=
  (if n <? 0 then str "-" else []) ++ hex_of_abs n.

Definition fmt_08X (n : Z) : bytes :=
  let sign := if n <? 0 then str "-" else [] in
  let body := hex_of_abs n in
  sign ++ replicate (8 - length sign - length body)%nat "0"%char ++ body.

(** [int(s, 16)] of Python 2.7 on a [str]: surrounding white space and a
    sign are accepted, as is a [0x] prefix before a digit; an embedded NUL,
    an empty digit string or any other character is a [ValueError].
    [unescape] only passes slices of at most two characters. *)
Definition isspace (c : ascii) : bool :=
  bool_decide (c ∈ [" "%char; "009"%char; "010"%char; "011"%char; "012"%char; "013"%char]).

Definition hex_value (c : ascii) : option Z :=
  let n := ord c in
  if (48 <=? n) && (n <=? 57) then Some (n - 48)
  else if (97 <=? n) && (n <=? 102) then Some (n - 87)
  else if (65 <=? n) && (n <=? 70) then Some (n - 55)
  else None.

Fixpoint lstrip (s : bytes) : bytes :=
  match s with
  | c :: s' => if isspace c then lstrip s' else s
  | [] => []
  end.

Fixpoint hex_prefix (acc : Z) (s : bytes) : Z * bytes :=
  match s with
  | c :: s' =>
      match hex_value c with
      | Some d => hex_prefix (acc * 16 + d) s'
      | None => (acc, s)
      end
  | [] => (acc, [])
  end.

Definition int_base16 (s : bytes) : outcome Z :=
  if bool_decide (NUL ∈ s) then Raise ValueError else
  let s := lstrip s in
  let '(sign, s) :=
    match s with
    | c :: s' =>
        if bool_decide (c = "+"%char) then (1, s')
        else if bool_decide (c = "-"%char) then (-1, s')
        else (1, s)
    | [] => (1, s)
    end in
  let s :=
    match s with
    | z :: x :: d :: s' =>
        if bool_decide (z = "0"%char)
           && bool_decide (x ∈ ["x"%char; "X"%char])
           && bool_decide (is_Some (hex_value d))
        then d :: s' else s
    | _ => s
    end in
  match s with
  | d :: _ =>
      match hex_value d with
      | Some _ =>
          let '(v, rest) := hex_prefix 0 s in
          match lstrip rest with
          | [] => Ok (sign * v)
          | _ :: _ => Raise ValueError
          end
      | None => Raise ValueError
      end
  | [] => Raise ValueError
  end.

(** ** [isValidBlockType]

    The loop visits every character [ch] of the tag, and its test compares
    the whole tag [block_type] with ['A'] and ['Z']. *)
Fixpoint isValidBlockType_loop (block_type : bytes) (chs : bytes) : bool :=
  match chs with
  | [] => true
  | ch :: chs' =>
      if negb (str_le (str "A") block_type && str_le block_type (str "Z"))
      then false
      else isValidBlockType_loop block_type chs'
  end.

Definition isValidBlockType (block_type : bytes) : outcome bool :=
  if negb (length block_type =? 4)%nat then Raise AssertionError
  else Ok (isValidBlockType_loop block_type block_type).

(** ** [unescape]

    [pos] is the index of the source; the loop runs once per escape or
    plain character, so [len(string)] iterations always suffice
    (lemma [unescape_loop_suffix] below). *)
Fixpoint unescape_loop (fuel : nat) (string : bytes) (pos : nat) (out : bytes)
  : outcome bytes :=
  if decide (pos < length string)%nat then
    match fuel with
    | O => Diverge
    | S fuel' =>
        match string !! pos with
        | None => Raise IndexError
        | Some ch =>
            if negb (bool_decide (ch = backslash)) then
              unescape_loop fuel' string (pos + 1) (out ++ [ch])
            else
              let pos := (pos + 1)%nat in
              match string !! pos with
              | None => Raise IndexError
              | Some ch =>
                  if bool_decide (ch = "x"%char) then
                    let* value := int_base16 (take 2 (drop (pos + 1) string)) in
                    let* c := chr value in
                    unescape_loop fuel' string (pos + 3) (out ++ [c])
                  else if bool_decide (ch = backslash) then
                    unescape_loop fuel' string (pos + 1) (out ++ [backslash])
                  else
                    Raise (WTFError (str "Unexpected escape code: " ++ [ch]))
              end
        end
    end
  else Ok out.

Definition unescape (string : bytes) : outcome bytes :=
  unescape_loop (length string) string 0 [].

(** ** [TEXT_RE.findall]

    [TEXT_RE] is the literal Text, an opening parenthesis and a quote, then
    a group of one or more characters other than the quote, then a quote and
    a closing parenthesis.  The group is greedy and is followed by a quote,
    so a match at a position exists exactly when the opening literal is
    there, followed by a non-empty run of characters other than the quote,
    followed by the quote and the parenthesis.  [findall] returns the groups,
    scanning on after each match. *)
Fixpoint strip_prefix (p s : bytes) : option bytes :=
  match p, s with
  | [], _ => Some s
  | x :: p', y :: s' => if bool_decide (x = y) then strip_prefix p' s' else None
  | _ :: _, [] => None
  end.

Fixpoint span_not_quote (s : bytes) : bytes * bytes :=
  match s with
  | c :: s' =>
      if bool_decide (c = dquote) then ([], s)
      else let '(g, r) := span_not_quote s' in (c :: g, r)
  | [] => ([], [])
  end.

Definition TEXT_RE_match (s : bytes) : option (bytes * bytes) :=
  match strip_prefix (str "Text(" ++ [dquote]) s with
  | Some s1 =>
      match span_not_quote s1 with
      | ((_ :: _) as g, q :: c :: s3) =>
          if bool_decide (c = ")"%char) then Some (g, s3) else None
      | _ => None
      end
  | None => None
  end.

Fixpoint TEXT_RE_findall_from (fuel : nat) (s : bytes) : list bytes :=
  match fuel, s with
  | S fuel', c :: s' =>
      match TEXT_RE_match s with
      | Some (g, rest) => g :: TEXT_RE_findall_from fuel' rest
      | None => TEXT_RE_findall_from fuel' s'
      end
  | _, _ => []
  end.

Definition TEXT_RE_findall (s : bytes) : list bytes :=
  TEXT_RE_findall_from (length s) s.

(** ** Game objects and the processor

    [GameObj] declares the slots [name] and [scripts] and no initial value:
    a slot is unset ([None]) until it is assigned, and reading an unset slot
    raises [AttributeError].

    Objects are shared between [_obj_dict] and [_current_obj]: they live in
    [heap], and both refer to them by their index there.  [stdout] is the
    text printed so far (the output printed before an exception is not
    tracked: an exception carries no state). *)

Record GameObj : Type := mkGameObj {
  name : option bytes;
  scripts : option bytes
}.

Definition GameObj_new : GameObj := {| name := None; scripts := None |}.

Record Processor : Type := mkProcessor {
  _infile : stream;
  _obj_dict : gmap Z nat;
  _current_obj : option nat;
  heap : list GameObj;
  stdout : bytes
}.

Definition Processor_init (infile : stream) : Processor :=
  {| _infile := infile; _obj_dict := ∅; _current_obj := None;
     heap := []; stdout := [] |}.

Definition set_infile (f : stream) (self : Processor) : Processor :=
  {| _infile := f; _obj_dict := _obj_dict self;
     _current_obj := _current_obj self; heap := heap self;
     stdout := stdout self |}.

Definition set_heap (h : list GameObj) (self : Processor) : Processor :=
  {| _infile := _infile self; _obj_dict := _obj_dict self;
     _current_obj := _current_obj self; heap := h; stdout := stdout self |}.

(** [print line] *)
Definition print (line : bytes) (self : Processor) : Processor :=
  {| _infile := _infile self; _obj_dict := _obj_dict self;
     _current_obj := _current_obj self; heap := heap self;
     stdout := stdout self ++ line ++ [newline] |}.

(** [self._current_obj = GameObj(); self._obj_dict[hdr_offset] = self._current_obj] *)
Definition new_current_obj (hdr_offset : Z) (self : Processor) : Processor :=
  let l := length (heap self) in
  {| _infile := _infile self; _obj_dict := <[hdr_offset := l]> (_obj_dict self);
     _current_obj := Some l; heap := heap self ++ [GameObj_new];
     stdout := stdout self |}.

(** The object a reference points to.  Every reference of [_obj_dict] and
    [_current_obj] is an index of [heap]; the default is never used. *)
Definition deref (h : list GameObj) (l : nat) : GameObj :=
  default GameObj_new (h !! l).

(** [self._current_obj.scripts = result] and [self._current_obj.name = result]:
    setting an attribute of [None] raises [AttributeError]. *)
Definition set_current_scripts (result : bytes) (self : Processor) : outcome Processor :=
  match _current_obj self with
  | None => Raise AttributeError
  | Some l =>
      let o := deref (heap self) l in
      Ok (set_heap (<[l := {| name := name o; scripts := Some result |}]> (heap self)) self)
  end.

Definition set_current_name (result : bytes) (self : Processor) : outcome Processor :=
  match _current_obj self with
  | None => Raise AttributeError
  | Some l =>
      let o := deref (heap self) l in
      Ok (set_heap (<[l := {| name := Some result; scripts := scripts o |}]> (heap self)) self)
  end.

Definition in_tuple (x : bytes) (t : list bytes) : bool := bool_decide (x ∈ t).

Section Processor.

(** The external disassembler: given the bytes staged in the temporary
    file, [None] when the program cannot be started, otherwise its return
    code, standard output and standard error. *)
Variable descumm : bytes -> option (Z * bytes * bytes).

Definition _dissassembleScript (size : Z) (self : Processor)
  : outcome (bytes * Processor) :=
  let* (data, f) := read (_infile self) size in
  let self := set_infile f self in
  match descumm data with
  | None => Raise OSError
  | Some (returncode, out, err) =>
      if negb (returncode =? 0) then Raise (DescummError returncode err)
      else Ok (out, self)
  end.

(** The loop of [_handleScript] over the matches, writing to [out_stream]. *)
Fixpoint _handleScript_loop (matches : list bytes) (out_stream : bytes)
  : outcome bytes :=
  match matches with
  | [] => Ok out_stream
  | m :: matches' =>
      let out_stream := out_stream ++ str "[String]" ++ [newline] in
      let* u := unescape m in
      let out_stream := out_stream ++ u ++ [newline] in
      let out_stream := out_stream ++ [newline] in
      _handleScript_loop matches' out_stream
  end.

Definition _handleScript (size : Z) (self : Processor)
  : outcome (bytes * Processor) :=
  let* (disasm, self) := _dissassembleScript size self in
  let* result := _handleScript_loop (TEXT_RE_findall disasm) [] in
  Ok (result, self).

(** [_readASCIIZ]: [while True] with one [read(1)] per iteration. *)
Fixpoint _readASCIIZ_loop (fuel : nat) (infile : stream) (out : bytes)
  : outcome (bytes * stream) :=
  match fuel with
  | O => Diverge
  | S fuel' =>
      let* (ch, infile) := read infile 1 in
      if bool_decide (ch = [NUL]) then Ok (out, infile)
      else _readASCIIZ_loop fuel' infile (out ++ ch)
  end.

Definition _readASCIIZ (fuel : nat) (self : Processor)
  : outcome (bytes * Processor) :=
  let* (s, f) := _readASCIIZ_loop fuel (_infile self) [] in
  Ok (s, set_infile f self).

(** The [while] loop of [_processSubBlocks]; [_processBlock] is the
    recursive call. *)
Fixpoint _processSubBlocks_loop (_processBlock : Processor -> outcome Processor)
    (fuel : nat) (end_ : Z) (self : Processor) : outcome Processor :=
  if tell (_infile self) <? end_ then
    match fuel with
    | O => Diverge
    | S fuel' =>
        let* self := _processBlock self in
        _processSubBlocks_loop _processBlock fuel' end_ self
    end
  else Ok self.

Definition _processSubBlocks (_processBlock : Processor -> outcome Processor)
    (fuel : nat) (size : Z) (self : Processor) : outcome Processor :=
  let end_ := tell (_infile self) + size in
  let* self := _processSubBlocks_loop _processBlock fuel end_ self in
  if tell (_infile self) >? end_ then
    Raise (WTFError (str "Overshot the end of a block while processing sub-blocks!"))
  else Ok self.

Definition hdr_size : Z := 8.

Fixpoint _processBlock (fuel : nat) (self : Processor) : outcome Processor :=
  match fuel with
  | O => Diverge
  | S fuel' =>
      let hdr_offset := tell (_infile self) in
      let* (block_type, f) := read (_infile self) 4 in
      let self := set_infile f self in
      let* (raw, f) := read (_infile self) 4 in
      let self := set_infile f self in
      let* raw_size := struct_unpack_BE_I raw in
      let size := raw_size - hdr_size in
      if in_tuple block_type [str "LECF"; str "LFLF"; str "ROOM"] then
        _processSubBlocks (_processBlock fuel') fuel' size self
      else if in_tuple block_type
                [str "SCRP"; str "LSCR"; str "ENCD"; str "EXCD"; str "VERB"] then
        let* f := seek (_infile self) hdr_offset SEEK_SET in
        let self := set_infile f self in
        let* (result, self) := _handleScript raw_size self in
        if bool_decide (block_type = str "VERB") then
          set_current_scripts result self
        else
          let self := print (str "***** " ++ block_type ++ str " SCRIPT AT: "
                             ++ fmt_08X hdr_offset ++ str " *****") self in
          Ok (print result self)
      else if bool_decide (block_type = str "OBCD") then
        let self := new_current_obj hdr_offset self in
        _processSubBlocks (_processBlock fuel') fuel' size self
      else if bool_decide (block_type = str "OBNA") then
        let* (s, self) := _readASCIIZ fuel' self in
        set_current_name s self
      else
        let* valid := isValidBlockType block_type in
        if negb valid then
          Raise (WTFError (str "Invalid block type at offset " ++ fmt_X hdr_offset))
        else
          let* f := seek (_infile self) size SEEK_CUR in
          Ok (set_infile f self)
  end.

(** The report loop of [process] over [self._obj_dict.items()].  The order
    of a dictionary's items is that of the interpreter's hash table, which
    the model does not reproduce: it takes the order of [map_to_list], so
    the objects of a report of several objects may come in another order
    than in a run of the program.  The statements below hold for any list
    of items, or for registries of one object. *)
Fixpoint process_loop (items : list (Z * nat)) (self : Processor)
  : outcome Processor :=
  match items with
  | [] => Ok self
  | (key, l) :: items' =>
      let value := deref (heap self) l in
      match name value with
      | None => Raise AttributeError
      | Some nm =>
          let self := print (str "***** OBJECT AT: " ++ fmt_08X key ++ str " ("
                             ++ nm ++ str ") *****") self in
          match scripts value with
          | None => Raise AttributeError
          | Some sc => process_loop items' (print sc self)
          end
      end
  end.

Definition process (fuel : nat) (self : Processor) : outcome Processor :=
  let* self := _processBlock fuel self in
  process_loop (map_to_list (_obj_dict self)) self.

(** ** [main]

    [main_open] is the body of the [with] statement up to the creation of
    the processor: the key from the first raw byte, the check of the magic
    through the decrypting stream, the seek back to the start. *)
Definition main_open (file : bytes) : outcome stream :=
  let infile := File file 0 in
  let* (magic, infile) := read infile 1 in
  match magic !! 0%nat with
  | None => Raise IndexError
  | Some m0 =>
      let xor := Z.lxor (ord m0) (ord "L"%char) in
      let infile := DecryptingStream infile xor in
      let* infile := seek infile 0 SEEK_SET in
      let* (magic, infile) := read infile 4 in
      if negb (bool_decide (magic = str "LECF")) then
        Raise (ScummFileError (str "This is not a compatible SCUMM file."))
      else
        seek infile 0 SEEK_SET
  end.

(** [main]: [file] is the contents of [args.infile], [None] when it cannot
    be opened.  The result is the return value of [main] ([None] on
    success); the exceptions that [main] does not catch propagate. *)
Definition main (fuel : nat) (scumm_ver : Z) (file : option bytes)
  : outcome (option Z) :=
  if negb (scumm_ver =? 5) then Ok (Some 1)
  else
    let body :=
      match file with
      | None => Raise IOError
      | Some data =>
          let* infile := main_open data in
          process fuel (Processor_init infile)
      end in
    match body with
    | Ok _ => Ok None
    | Raise IOError => Ok (Some 1)
    | Raise (ScummFileError _) => Ok (Some 1)
    | Raise (DescummError _ _) => Ok (Some 1)
    | Raise e => Raise e
    | Diverge => Diverge
    end.

End Processor.

(** ** Definitions used in the statements *)

(** The byte transform of [DecryptingStream.read]. *)
Definition xor_byte (k : Z) (x : ascii) : ascii :=
  ascii_of_N (Z.to_N (Z.lxor (ord x) k)).

Definition not_compatible : exn :=
  ScummFileError (str "This is not a compatible SCUMM file.").

(** The key [main] derives from the first raw byte. *)
Definition key_of (b0 : ascii) : Z := Z.lxor (ord b0) (ord "L"%char).

(** Archive builders for the examples: a 32-bit big-endian size field and
    a block with its header. *)
Definition be32 (n : Z) : bytes :=
  map (fun k => ascii_of_N (Z.to_N ((n / 256 ^ k) mod 256))) [3; 2; 1; 0].

Definition block (tag : string) (payload : bytes) : bytes :=
  str tag ++ be32 (8 + Z.of_nat (length payload)) ++ payload.

(** The header part of [_processBlock]: the tag, the declared size, and the
    processor after the two reads. *)
Definition read_header (self : Processor) : outcome (bytes * Z * Processor) :=
  let* (block_type, f) := read (_infile self) 4 in
  let self := set_infile f self in
  let* (raw, f) := read (_infile self) 4 in
  let self := set_infile f self in
  let* raw_size := struct_unpack_BE_I raw in
  Ok (block_type, raw_size, self).

(** The number of bytes by which each iteration of the loop of
    [_processSubBlocks] advances the stream. *)
Fixpoint subblock_sizes (_processBlock : Processor -> outcome Processor)
    (fuel : nat) (end_ : Z) (self : Processor) : list Z :=
  if tell (_infile self) <? end_ then
    match fuel with
    | O => []
    | S fuel' =>
        match _processBlock self with
        | Ok self' =>
            (tell (_infile self') - tell (_infile self))
              :: subblock_sizes _processBlock fuel' end_ self'
        | _ => []
        end
    end
  else [].

Definition sum_list (l : list Z) : Z := foldr Z.add 0 l.

Definition overshot : exn :=
  WTFError (str "Overshot the end of a block while processing sub-blocks!").

(** A stand-in for the disassembler in the examples: it renders the payload
    of the script block as one [Text] operand. *)
Definition descumm_echo (data : bytes) : option (Z * bytes * bytes) :=
  Some (0, str "Text(" ++ [dquote] ++ drop 8 data ++ [dquote] ++ str ")", []).

(** The two lines [process] prints for an object. *)
Definition report_entry (h : list GameObj) (item : Z * nat) : bytes :=
  let value := deref h item.2 in
  str "***** OBJECT AT: " ++ fmt_08X item.1 ++ str " ("
    ++ default [] (name value) ++ str ") *****" ++ [newline]
    ++ default [] (scripts value) ++ [newline].

(** An archive with one object, named [Foo], with one verb script, and
    one global script. *)
Definition example_archive : bytes :=
  block "LECF"
    (block "OBCD" (block "OBNA" (str "Foo" ++ [NUL]) ++ block "VERB" (str "a"))
     ++ block "SCRP" (str "zz\x41")).


(** An archive whose object has a name and no verb script. *)
Definition no_verb_archive : bytes :=
  block "LECF" (block "OBCD" (block "OBNA" (str "Foo" ++ [NUL]))).

(** The report fragment of one extracted string. *)
Definition fragment (text : bytes) : bytes :=
  str "[String]" ++ [newline] ++ text ++ [newline] ++ [newline].

(** The processor after [text] has been printed. *)
Definition emit (text : bytes) (self : Processor) : Processor :=
  {| _infile := _infile self; _obj_dict := _obj_dict self;
     _current_obj := _current_obj self; heap := heap self;
     stdout := stdout self ++ text |}.

(** The disassembly of the example of the specification: two [Text]
    operands, the second one escaped. *)
Definition descumm_hello (data : bytes) : option (Z * bytes * bytes) :=
  Some (0, str "(D8) printEgo([Text(" ++ [dquote] ++ str "Hello" ++ [dquote]
            ++ str ")]);" ++ [newline]
            ++ str "(D8) printEgo([Text(" ++ [dquote] ++ str "\x41\x42" ++ [dquote]
            ++ str ")]);" ++ [newline], []).

(** An archive whose object container sits at offset [0x100], after an
    unrecognized block of padding. *)
Definition hello_archive : bytes :=
  block "LECF"
    (block "PADD" (replicate 240 NUL)
     ++ block "OBCD" (block "OBNA" (str "Foo" ++ [NUL]) ++ block "VERB" (str "s"))).

(** The decrypted contents of a stream and its position: what the reads of
    a file wrapped in decrypting streams with byte keys return. *)
Fixpoint view (s : stream) : option (bytes * Z) :=
  match s with
  | File data pos => Some (data, pos)
  | DecryptingStream _stream _xor =>
      if (0 <=? _xor) && (_xor <? 256) then
        match view _stream with
        | Some (d, p) => Some (map (xor_byte _xor) d, p)
        | None => None
        end
      else None
  end.

(** An escaping scheme that [unescape] undoes: the bytes selected by [hexed]
    are written as a backslash, [x] and two upper-case hexadecimal digits, a
    backslash that is not selected is doubled, every other byte is kept. *)
Definition hex2 (c : ascii) : bytes :=
  [hex_char (ord c / 16); hex_char (ord c mod 16)].

Definition escape1 (hexed : ascii -> bool) (c : ascii) : bytes :=
  if hexed c then backslash :: "x"%char :: hex2 c
  else if bool_decide (c = backslash) then [backslash; backslash]
  else [c].

Fixpoint escape (hexed : ascii -> bool) (s : bytes) : bytes :=
  match s with
  | [] => []
  | c :: s' => escape1 hexed c ++ escape hexed s'
  end.

(** What a run of the body of [main] prints, when it completes. *)
Definition report (descumm : bytes -> option (Z * bytes * bytes))
    (fuel : nat) (file : bytes) : outcome bytes :=
  let* infile := main_open file in
  let* self := process descumm fuel (Processor_init infile) in
  Ok (stdout self).

(** Two processors that differ in the representation of the stream only:
    the same decrypted contents at the same position. *)
Definition same_stream (s1 s2 : stream) : Prop :=
  exists (d : bytes) (p : Z), view s1 = Some (d, p) /\ view s2 = Some (d, p).

Definition same_processor (p1 p2 : Processor) : Prop :=
  same_stream (_infile p1) (_infile p2)
  /\ _obj_dict p1 = _obj_dict p2
  /\ _current_obj p1 = _current_obj p2
  /\ heap p1 = heap p2
  /\ stdout p1 = stdout p2.

(** Outcomes of the same kind, with related results. *)
Definition same_outcome {A : Type} (R : A -> A -> Prop) (o1 o2 : outcome A) : Prop :=
  match o1, o2 with
  | Ok a1, Ok a2 => R a1 a2
  | Raise e1, Raise e2 => e1 = e2
  | Diverge, Diverge => True
  | _, _ => False
  end.

(** The references of a processor point into its heap. *)
Definition refs_valid (self : Processor) : Prop :=
  (forall (k : Z) (l : nat), _obj_dict self !! k = Some l -> (l < length (heap self))%nat)
  /\ (forall l : nat, _current_obj self = Some l -> (l < length (heap self))%nat).

(** [self'] keeps what [self] had: no object is dropped from the heap, the
    output is extended, and every registered offset stays registered. *)
Definition extends (self self' : Processor) : Prop :=
  (length (heap self) <= length (heap self'))%nat
  /\ (exists t : bytes, stdout self' = stdout self ++ t)
  /\ (forall k : Z, is_Some (_obj_dict self !! k) -> is_Some (_obj_dict self' !! k)).

(** A step that keeps the references valid and only extends the state. *)
Definition keeps (self self' : Processor) : Prop :=
  (refs_valid self -> refs_valid self') /\ extends self self'.

(** What the walk keeps of a stream with a view: the contents, and a
    position that is not negative; and what it never raises. *)
Definition walk_ok (d : bytes) (o : outcome Processor) : Prop :=
  match o with
  | Ok self' => exists p' : Z, view (_infile self') = Some (d, p') /\ 0 <= p'
  | Raise e => e <> AssertionError
  | Diverge => True
  end.

(** * Properties *)

(** ** Bytes *)

Lemma ord_range (x : ascii) : 0 <= ord x < 256.
Proof.
  unfold ord. pose proof (N_ascii_bounded x). lia.
Qed.

Lemma chr_ord (x : ascii) : chr (ord x) = Ok x.
Proof.
  unfold chr. pose proof (ord_range x) as H.
  replace ((0 <=? ord x) && (ord x <? 256)) with true
    by (symmetry; apply andb_true_iff; split; [apply Z.leb_le | apply Z.ltb_lt]; lia).
  unfold ord. rewrite N2Z.id. now rewrite ascii_N_embedding.
Qed.

Lemma chr_Ok (i : Z) :
  0 <= i < 256 -> chr i = Ok (ascii_of_N (Z.to_N i)) /\ ord (ascii_of_N (Z.to_N i)) = i.
Proof.
  intros H. unfold chr, ord. split.
  - replace ((0 <=? i) && (i <? 256)) with true; [reflexivity |].
    symmetry; apply andb_true_iff; split; [apply Z.leb_le | apply Z.ltb_lt]; lia.
  - rewrite N_ascii_embedding by lia. lia.
Qed.

Lemma lxor_byte (a k : Z) : 0 <= a < 256 -> 0 <= k < 256 -> 0 <= Z.lxor a k < 256.
Proof.
  intros Ha Hk. split; [apply Z.lxor_nonneg; lia |].
  destruct (Z.eq_dec (Z.lxor a k) 0) as [-> | Hnz]; [lia |].
  assert (Hpos : 0 < Z.lxor a k) by (pose proof (proj2 (Z.lxor_nonneg a k)); lia).
  change 256 with (2 ^ 8). apply Z.log2_lt_pow2; [exact Hpos |].
  pose proof (Z.log2_lxor a k ltac:(lia) ltac:(lia)) as Hl.
  assert (Hb : forall v, 0 <= v < 256 -> Z.log2 v < 8).
  { intros v Hv. destruct (Z.eq_dec v 0) as [-> | ?]; [reflexivity |].
    apply Z.log2_lt_pow2; [lia | exact (proj2 Hv)]. }
  pose proof (Hb a Ha). pose proof (Hb k Hk). lia.
Qed.

Lemma chr_xor (k : Z) (x : ascii) :
  0 <= k < 256 -> chr (Z.lxor (ord x) k) = Ok (xor_byte k x).
Proof.
  intros Hk. apply chr_Ok, lxor_byte; [apply ord_range | exact Hk].
Qed.

Lemma xor_byte_twice (k : Z) (x : ascii) :
  0 <= k < 256 -> xor_byte k (xor_byte k x) = x.
Proof.
  intros Hk. unfold xor_byte at 1.
  assert (H : ord (xor_byte k x) = Z.lxor (ord x) k).
  { apply chr_Ok, lxor_byte; [apply ord_range | exact Hk]. }
  rewrite H, Z.lxor_assoc, Z.lxor_nilpotent, Z.lxor_0_r.
  unfold ord. rewrite N2Z.id. apply ascii_N_embedding.
Qed.

Lemma mapM_xor (k : Z) (data : bytes) :
  0 <= k < 256 ->
  mapM (fun x => chr (Z.lxor (ord x) k)) data = Ok (map (xor_byte k) data).
Proof.
  intros Hk. induction data as [| x data IH]; [reflexivity |].
  cbn [mapM map]. rewrite chr_xor by exact Hk. cbn [bind]. now rewrite IH.
Qed.

Lemma map_xor_byte_twice (k : Z) (data : bytes) :
  0 <= k < 256 -> map (xor_byte k) (map (xor_byte k) data) = data.
Proof.
  intros Hk. induction data as [| x data IH]; [reflexivity |].
  cbn [map]. now rewrite xor_byte_twice, IH.
Qed.

(** ** Streams: a read advances the position by the number of bytes read *)

Lemma mapM_length {A B : Type} (f : A -> outcome B) (l : list A) (l' : list B) :
  mapM f l = Ok l' -> length l' = length l.
Proof.
  revert l'. induction l as [| x l IH]; intros l' H; cbn in H.
  - now inversion H.
  - destruct (f x); try discriminate. cbn in H.
    destruct (mapM f l) as [ys | |]; try discriminate. cbn in H.
    inversion H; subst. cbn. f_equal. now apply IH.
Qed.

Lemma read_tell (s : stream) (n : Z) (d : bytes) (s' : stream) :
  read s n = Ok (d, s') -> tell s' = tell s + Z.of_nat (length d).
Proof.
  revert d s'. induction s as [data pos | s IH k]; intros d s' H; cbn in H.
  - unfold file_read in H. inversion H; subst. reflexivity.
  - destruct (read s n) as [[d0 s0] | |]; try discriminate. cbn in H.
    specialize (IH _ _ eq_refl).
    destruct (k =? 0).
    + cbn in H. inversion H; subst. exact IH.
    + destruct (mapM _ d0) as [d1 | |] eqn:Hm; try discriminate.
      cbn in H. inversion H; subst. cbn. rewrite IH.
      now rewrite (mapM_length _ _ _ Hm).
Qed.

Lemma read_length (s : stream) (n : Z) (d : bytes) (s' : stream) :
  0 <= n -> read s n = Ok (d, s') -> (length d <= Z.to_nat n)%nat.
Proof.
  intros Hn. revert d s'. induction s as [data pos | s IH k]; intros d s' H; cbn in H.
  - unfold file_read in H. inversion H; subst.
    destruct (n <? 0) eqn:E; [apply Z.ltb_lt in E; lia |].
    rewrite length_take. lia.
  - destruct (read s n) as [[d0 s0] | |]; try discriminate. cbn in H.
    specialize (IH _ _ eq_refl).
    destruct (k =? 0).
    + cbn in H. inversion H; subst. exact IH.
    + destruct (mapM _ d0) as [d1 | |] eqn:Hm; try discriminate.
      cbn in H. inversion H; subst. now rewrite (mapM_length _ _ _ Hm).
Qed.

(** C9. For every byte key [k], reading through two [DecryptingStream]s
    with the same key returns the bytes of the underlying stream (the XOR
    transform is an involution); a [DecryptingStream] with key 0 returns
    what the underlying stream returns; and, for every key, [tell] and
    [seek] are those of the underlying stream. *)
Theorem DecryptingStream_involution_passthrough
    (s : stream) (k n offset whence : Z) :
  0 <= k < 256 ->
  read (DecryptingStream (DecryptingStream s k) k) n
    = (let* (d, s') := read s n in
       Ok (d, DecryptingStream (DecryptingStream s' k) k))
  /\ read (DecryptingStream s 0) n
       = (let* (d, s') := read s n in Ok (d, DecryptingStream s' 0))
  /\ (forall key : Z,
        tell (DecryptingStream s key) = tell s
        /\ seek (DecryptingStream s key) offset whence
             = (let* s' := seek s offset whence in Ok (DecryptingStream s' key))).
Proof.
  intros Hk. split; [| split].
  - cbn [read]. destruct (read s n) as [[d s'] | |]; cbn [bind]; try reflexivity.
    destruct (k =? 0); cbn [bind]; [reflexivity |].
    rewrite mapM_xor by exact Hk. cbn [bind].
    rewrite mapM_xor by exact Hk. cbn [bind].
    now rewrite map_xor_byte_twice.
  - cbn [read]. destruct (read s n) as [[d s'] | |]; reflexivity.
  - intros key. split; reflexivity.
Qed.

Lemma DecryptingStream_involution_passthrough_witness :
  read (DecryptingStream (DecryptingStream (File (str "LECF") 0) 105) 105) 4
    = Ok (str "LECF",
          DecryptingStream (DecryptingStream (File (str "LECF") 4) 105) 105).
Proof.
  pose proof (DecryptingStream_involution_passthrough
                (File (str "LECF") 0) 105 4 0 SEEK_SET ltac:(lia)) as [H _].
  rewrite H. reflexivity.
Defined.

(** ** The magic check of [main] *)

Lemma key_of_range (b0 : ascii) : 0 <= key_of b0 < 256.
Proof. apply lxor_byte; apply ord_range. Qed.

Lemma xor_byte_0 (x : ascii) : xor_byte 0 x = x.
Proof.
  unfold xor_byte. rewrite Z.lxor_0_r. unfold ord.
  rewrite N2Z.id. apply ascii_N_embedding.
Qed.

Lemma ord_xor_byte (k : Z) (x : ascii) :
  0 <= k < 256 -> ord (xor_byte k x) = Z.lxor (ord x) k.
Proof.
  intros Hk. apply chr_Ok, lxor_byte; [apply ord_range | exact Hk].
Qed.

Lemma xor_byte_key_inj (k k' : Z) (x : ascii) :
  0 <= k < 256 -> 0 <= k' < 256 -> xor_byte k x = xor_byte k' x -> k = k'.
Proof.
  intros Hk Hk' H. apply (f_equal ord) in H.
  rewrite !ord_xor_byte in H by assumption.
  apply (f_equal (Z.lxor (ord x))) in H.
  rewrite <- !Z.lxor_assoc, Z.lxor_nilpotent, !Z.lxor_0_l in H. exact H.
Qed.

Lemma ord_inj (x y : ascii) : ord x = ord y -> x = y.
Proof.
  intros H. rewrite <- (ascii_N_embedding x), <- (ascii_N_embedding y).
  unfold ord in H. f_equal. lia.
Qed.

Lemma key_of_inj (b0 b0' : ascii) : key_of b0 = key_of b0' -> b0 = b0'.
Proof.
  unfold key_of. intros H. apply ord_inj.
  apply (f_equal (fun v => Z.lxor v (ord "L"%char))) in H.
  now rewrite !Z.lxor_assoc, Z.lxor_nilpotent, !Z.lxor_0_r in H.
Qed.

Lemma xor_byte_key_of (b0 : ascii) : xor_byte (key_of b0) b0 = "L"%char.
Proof.
  unfold xor_byte, key_of.
  rewrite <- Z.lxor_assoc, Z.lxor_nilpotent, Z.lxor_0_l. reflexivity.
Qed.

(** What a [DecryptingStream] over a file reads, for a byte key. *)
Lemma read_DecryptingStream_File (data : bytes) (pos k n : Z) :
  0 <= k < 256 ->
  read (DecryptingStream (File data pos) k) n
    = Ok (map (xor_byte k) (fst (file_read data pos n)),
          DecryptingStream (snd (file_read data pos n)) k).
Proof.
  intros Hk. cbn [read bind]. destruct (file_read data pos n) as [d f]. cbn [fst snd].
  destruct (k =? 0) eqn:E.
  - apply Z.eqb_eq in E. subst k. cbn [bind]. f_equal. f_equal.
    induction d as [| x d IH]; [reflexivity |]. cbn [map].
    now rewrite xor_byte_0, <- IH.
  - rewrite mapM_xor by exact Hk. reflexivity.
Qed.

Lemma main_open_eq (b0 : ascii) (rest : bytes) :
  main_open (b0 :: rest)
    = if bool_decide (map (xor_byte (key_of b0)) (take 3 rest) = str "ECF")
      then Ok (DecryptingStream (File (b0 :: rest) 0) (key_of b0))
      else Raise not_compatible.
Proof.
  assert (H1 : file_read (b0 :: rest) 0 1 = ([b0], File (b0 :: rest) 1))
    by reflexivity.
  assert (H4 : fst (file_read (b0 :: rest) 0 4) = b0 :: take 3 rest)
    by reflexivity.
  unfold main_open. cbn [read]. rewrite H1. cbn [bind].
  change ([b0] !! 0%nat) with (Some b0). cbv iota beta.
  fold (key_of b0). cbn [seek bind].
  change (file_seek (b0 :: rest) 1 0 SEEK_SET) with (Ok (File (b0 :: rest) 0)).
  cbn [bind].
  rewrite (read_DecryptingStream_File (b0 :: rest) 0 (key_of b0) 4 (key_of_range b0)).
  cbn [bind]. rewrite H4.
  cbn [map]. rewrite xor_byte_key_of.
  destruct (bool_decide (map (xor_byte (key_of b0)) (take 3 rest) = str "ECF")) eqn:E.
  - apply bool_decide_eq_true in E. rewrite E.
    cbn [seek bind]. unfold file_seek. reflexivity.
  - apply bool_decide_eq_false in E.
    rewrite bool_decide_eq_false_2; [reflexivity |].
    intros H. apply E. cbn in H. now inversion H.
Qed.

(** C10 (as stated, refuted). The files [LECF] and [MECF] differ in byte 0
    only; the magic check accepts the first and rejects the second. *)
Lemma magic_check_depends_on_byte0 :
  tail (str "LECF") = tail (str "MECF")
  /\ main_open (str "LECF") = Ok (DecryptingStream (File (str "LECF") 0) 0)
  /\ main_open (str "MECF") = Raise not_compatible.
Proof. repeat split; reflexivity. Qed.

(** C10 (amended). For every non-empty file the first decrypted byte is
    [L]; the magic check passes exactly when the bytes at offsets 1 to 3,
    XORed with the key derived from byte 0, are [ECF]; the outcome therefore
    depends on byte 0 through the key: of two files that differ in byte 0
    only, at most one passes. *)
Theorem magic_check_key_from_byte0 (b0 : ascii) (rest : bytes) :
  (exists s', read (DecryptingStream (File (b0 :: rest) 0) (key_of b0)) 1
              = Ok (str "L", s'))
  /\ ((exists s, main_open (b0 :: rest) = Ok s)
      <-> map (xor_byte (key_of b0)) (take 3 rest) = str "ECF")
  /\ (forall b0' : ascii,
        b0' <> b0 ->
        (exists s, main_open (b0 :: rest) = Ok s) ->
        main_open (b0' :: rest) = Raise not_compatible).
Proof.
  assert (Hiff : (exists s, main_open (b0 :: rest) = Ok s)
                 <-> map (xor_byte (key_of b0)) (take 3 rest) = str "ECF").
  { rewrite main_open_eq. split.
    - intros [s Hs]. destruct (bool_decide _) eqn:E; [| discriminate].
      now apply bool_decide_eq_true in E.
    - intros H. rewrite bool_decide_eq_true_2 by exact H. eauto. }
  split; [| split].
  - rewrite (read_DecryptingStream_File _ _ _ _ (key_of_range b0)).
    eexists. change (fst (file_read (b0 :: rest) 0 1)) with [b0].
    cbn [map]. now rewrite xor_byte_key_of.
  - exact Hiff.
  - intros b0' Hne Hacc. apply Hiff in Hacc.
    rewrite main_open_eq. rewrite bool_decide_eq_false_2; [reflexivity |].
    intros H'. apply Hne.
    destruct rest as [| b1 rest1]; [discriminate |].
    cbn [take map] in Hacc, H'.
    assert (Hb : xor_byte (key_of b0') b1 = xor_byte (key_of b0) b1)
      by (cbn in Hacc, H'; congruence).
    apply key_of_inj.
    exact (xor_byte_key_inj _ _ _ (key_of_range b0') (key_of_range b0) Hb).
Qed.

Lemma magic_check_key_from_byte0_witness :
  main_open (str "MECF") = Raise not_compatible.
Proof.
  destruct (magic_check_key_from_byte0 "L"%char (str "ECF")) as (_ & _ & H).
  apply (H "M"%char); [discriminate |].
  exists (DecryptingStream (File (str "LECF") 0) 0). reflexivity.
Defined.

(** ** [unescape] *)

Lemma lookup_shift {A : Type} (pre s : list A) (i : nat) :
  (pre ++ s) !! (length pre + i)%nat = s !! i.
Proof.
  rewrite lookup_app_r by lia. f_equal. lia.
Qed.

(** The loop only looks at the string from [pos] on. *)
Lemma unescape_loop_shift (pre s : bytes) (fuel pos : nat) (out : bytes) :
  unescape_loop fuel (pre ++ s) (length pre + pos) out = unescape_loop fuel s pos out.
Proof.
  revert pos out. induction fuel as [| fuel IH]; intros pos out; cbn [unescape_loop].
  - rewrite length_app.
    destruct (decide (length pre + pos < length pre + length s)%nat),
             (decide (pos < length s)%nat); try reflexivity; lia.
  - rewrite length_app.
    destruct (decide (length pre + pos < length pre + length s)%nat),
             (decide (pos < length s)%nat); try reflexivity; try lia.
    rewrite lookup_shift.
    destruct (s !! pos) as [ch |]; [| reflexivity].
    replace (length pre + pos + 1)%nat with (length pre + (pos + 1))%nat by lia.
    destruct (negb (bool_decide (ch = backslash))); [apply IH |].
    rewrite lookup_shift.
    destruct (s !! (pos + 1)%nat) as [ch' |]; [| reflexivity].
    replace (length pre + (pos + 1) + 1)%nat with (length pre + (pos + 1 + 1))%nat by lia.
    replace (length pre + (pos + 1) + 3)%nat with (length pre + (pos + 1 + 3))%nat by lia.
    rewrite drop_app_add.
    destruct (bool_decide (ch' = "x"%char)).
    + destruct (int_base16 _) as [v | |]; cbn [bind]; try reflexivity.
      destruct (chr v); cbn [bind]; try reflexivity. apply IH.
    + destruct (bool_decide (ch' = backslash)); [apply IH | reflexivity].
Qed.

(** The output written so far is only ever extended. *)
Lemma unescape_loop_out (string : bytes) (fuel pos : nat) (out : bytes) :
  unescape_loop fuel string pos out
    = let* r := unescape_loop fuel string pos [] in Ok (out ++ r).
Proof.
  revert pos out. induction fuel as [| fuel IH]; intros pos out; cbn [unescape_loop].
  - destruct (decide (pos < length string)%nat); cbn [bind]; [reflexivity |].
    now rewrite app_nil_r.
  - destruct (decide (pos < length string)%nat); cbn [bind];
      [| now rewrite app_nil_r].
    destruct (string !! pos) as [ch |]; [| reflexivity].
    assert (Hstep : forall p o,
              unescape_loop fuel string p (out ++ o)
                = let* r := unescape_loop fuel string p ([] ++ o) in Ok (out ++ r)).
    { intros p o. rewrite (IH p (out ++ o)), (IH p ([] ++ o)).
      destruct (unescape_loop fuel string p []); cbn [bind]; try reflexivity.
      now rewrite app_assoc. }
    destruct (negb (bool_decide (ch = backslash))); [apply Hstep |].
    destruct (string !! (pos + 1)%nat) as [ch' |]; [| reflexivity].
    destruct (bool_decide (ch' = "x"%char)).
    + destruct (int_base16 _) as [v | |]; cbn [bind]; try reflexivity.
      destruct (chr v); cbn [bind]; try reflexivity. apply Hstep.
    + destruct (bool_decide (ch' = backslash)); [apply Hstep | reflexivity].
Qed.

Lemma chr_not_Diverge (i : Z) : chr i <> Diverge.
Proof. unfold chr. destruct ((0 <=? i) && (i <? 256)); congruence. Qed.

Lemma int_base16_not_Diverge (s : bytes) : int_base16 s <> Diverge.
Proof. unfold int_base16. repeat case_match; congruence. Qed.

(** Any fuel that covers the rest of the string gives the same result, and
    the result is never [Diverge]. *)
Lemma unescape_loop_fuel (string : bytes) (fuel fuel' pos : nat) (out : bytes) :
  (length string - pos <= fuel)%nat -> (length string - pos <= fuel')%nat ->
  unescape_loop fuel string pos out = unescape_loop fuel' string pos out
  /\ unescape_loop fuel string pos out <> Diverge.
Proof.
  revert fuel' pos out. induction fuel as [| fuel IH]; intros fuel' pos out H H'.
  - cbn [unescape_loop]. destruct fuel'; cbn [unescape_loop];
      destruct (decide (pos < length string)%nat); try lia; split; congruence.
  - destruct fuel' as [| fuel'].
    { cbn [unescape_loop].
      destruct (decide (pos < length string)%nat); try lia; split; congruence. }
    cbn [unescape_loop].
    destruct (decide (pos < length string)%nat); [| split; congruence].
    destruct (string !! pos) as [ch |]; [| split; congruence].
    destruct (negb (bool_decide (ch = backslash))); [apply IH; lia |].
    destruct (string !! (pos + 1)%nat) as [ch' |]; [| split; congruence].
    destruct (bool_decide (ch' = "x"%char)).
    + pose proof (int_base16_not_Diverge (take 2 (drop (pos + 1 + 1) string))) as Hi.
      destruct (int_base16 _) as [v | |]; cbn [bind]; try (split; congruence).
      pose proof (chr_not_Diverge v) as Hc.
      destruct (chr v); cbn [bind]; try (split; congruence). apply IH; lia.
    + destruct (bool_decide (ch' = backslash)); [apply IH; lia | split; congruence].
Qed.

(** Continuing after [n] characters of [pre] have been decoded to [o]. *)
Lemma unescape_loop_continue (pre s : bytes) (o : bytes) (fuel : nat) :
  (length s <= fuel)%nat ->
  unescape_loop fuel (pre ++ s) (length pre) o
    = let* r := unescape s in Ok (o ++ r).
Proof.
  intros H. replace (length pre) with (length pre + 0)%nat at 1 by lia.
  rewrite unescape_loop_shift, unescape_loop_out. unfold unescape.
  now rewrite (proj1 (unescape_loop_fuel s fuel (length s) 0 [] ltac:(lia) ltac:(lia))).
Qed.

Lemma unescape_total (string : bytes) : unescape string <> Diverge.
Proof.
  unfold unescape. apply (unescape_loop_fuel string _ (length string)); lia.
Qed.

Lemma hex_value_facts (h : ascii) (v : Z) :
  hex_value h = Some v ->
  0 <= v < 16 /\ isspace h = false /\ h <> "+"%char /\ h <> "-"%char /\ h <> NUL.
Proof.
  destruct h as [[] [] [] [] [] [] [] []]; vm_compute; intros H;
    try discriminate H; injection H as <-;
    repeat split; try discriminate; intros ?; discriminate.
Qed.

Lemma int_base16_two_hex (h1 h2 : ascii) (v1 v2 : Z) :
  hex_value h1 = Some v1 -> hex_value h2 = Some v2 ->
  int_base16 [h1; h2] = Ok (16 * v1 + v2).
Proof.
  intros H1 H2.
  destruct (hex_value_facts _ _ H1) as (_ & Hs1 & Hp1 & Hm1 & Hn1).
  destruct (hex_value_facts _ _ H2) as (_ & _ & _ & _ & Hn2).
  unfold int_base16.
  rewrite bool_decide_eq_false_2
    by (intros Hin; apply elem_of_cons in Hin as [E | Hin]; [congruence |];
        apply elem_of_cons in Hin as [E | Hin]; [congruence |];
        now apply elem_of_nil in Hin).
  cbn [lstrip]. rewrite Hs1.
  rewrite (bool_decide_eq_false_2 _ Hp1), (bool_decide_eq_false_2 _ Hm1).
  rewrite H1. cbn [hex_prefix]. rewrite H1, H2. cbn [lstrip].
  f_equal. lia.
Qed.

Lemma int_base16_not_hex (a : ascii) (t : bytes) :
  hex_value a = None -> isspace a = false -> a <> "+"%char -> a <> "-"%char ->
  (length t <= 1)%nat ->
  int_base16 (a :: t) = Raise ValueError.
Proof.
  intros Hh Hs Hp Hm Hl. unfold int_base16.
  destruct (bool_decide (NUL ∈ a :: t)); [reflexivity |].
  cbn [lstrip]. rewrite Hs.
  rewrite (bool_decide_eq_false_2 _ Hp), (bool_decide_eq_false_2 _ Hm).
  destruct t as [| b [| c t]]; cbn [length] in Hl; try lia; now rewrite Hh.
Qed.

(** One iteration of the loop. *)
Lemma unescape_loop_S (fuel : nat) (string : bytes) (pos : nat) (out : bytes) :
  unescape_loop (S fuel) string pos out
  = if decide (pos < length string)%nat then
      match string !! pos with
      | None => Raise IndexError
      | Some ch =>
          if negb (bool_decide (ch = backslash)) then
            unescape_loop fuel string (pos + 1) (out ++ [ch])
          else
            match string !! (pos + 1)%nat with
            | None => Raise IndexError
            | Some ch =>
                if bool_decide (ch = "x"%char) then
                  let* value := int_base16 (take 2 (drop (pos + 1 + 1) string)) in
                  let* c := chr value in
                  unescape_loop fuel string (pos + 1 + 3) (out ++ [c])
                else if bool_decide (ch = backslash) then
                  unescape_loop fuel string (pos + 1 + 1) (out ++ [backslash])
                else
                  Raise (WTFError (str "Unexpected escape code: " ++ [ch]))
            end
      end
    else Ok out.
Proof. reflexivity. Qed.

(** One iteration of the loop at the head of the string. *)
Lemma unescape_plain (c : ascii) (s : bytes) :
  c <> backslash -> unescape (c :: s) = let* r := unescape s in Ok (c :: r).
Proof.
  intros Hc. unfold unescape at 1. cbn [length]. rewrite unescape_loop_S.
  destruct (decide _) as [_ | Hn]; [| cbn [length] in Hn; lia].
  cbn [lookup list_lookup Nat.add]. rewrite (bool_decide_eq_false_2 _ Hc). cbn [negb].
  exact (unescape_loop_continue [c] s ([] ++ [c]) (length s) (le_n _)).
Qed.

Lemma unescape_backslash (s : bytes) :
  unescape (backslash :: backslash :: s) = let* r := unescape s in Ok (backslash :: r).
Proof.
  unfold unescape at 1. cbn [length]. rewrite unescape_loop_S.
  destruct (decide _) as [_ | Hn]; [| cbn [length] in Hn; lia].
  cbn [lookup list_lookup Nat.add]. rewrite bool_decide_eq_true_2 by reflexivity. cbn [negb].
  change (bool_decide (backslash = "x"%char)) with false. cbv iota.
  exact (unescape_loop_continue [backslash; backslash] s ([] ++ [backslash])
           (S (length s)) ltac:(lia)).
Qed.

Lemma unescape_hex (h1 h2 : ascii) (v1 v2 : Z) (s : bytes) :
  hex_value h1 = Some v1 -> hex_value h2 = Some v2 ->
  unescape (backslash :: "x"%char :: h1 :: h2 :: s)
    = let* r := unescape s in Ok (ascii_of_N (Z.to_N (16 * v1 + v2)) :: r).
Proof.
  intros H1 H2. unfold unescape at 1. cbn [length]. rewrite unescape_loop_S.
  destruct (decide _) as [_ | Hn]; [| cbn [length] in Hn; lia].
  cbn [lookup list_lookup Nat.add]. rewrite bool_decide_eq_true_2 by reflexivity. cbn [negb].
  rewrite bool_decide_eq_true_2 by reflexivity.
  change (take 2 (drop 2 (backslash :: "x"%char :: h1 :: h2 :: s)))
    with [h1; h2].
  rewrite (int_base16_two_hex _ _ _ _ H1 H2). cbn [bind].
  destruct (hex_value_facts _ _ H1) as (R1 & _).
  destruct (hex_value_facts _ _ H2) as (R2 & _).
  rewrite (proj1 (chr_Ok (16 * v1 + v2) ltac:(lia))). cbn [bind].
  exact (unescape_loop_continue [backslash; "x"%char; h1; h2] s _
           (S (S (S (length s)))) ltac:(lia)).
Qed.

Lemma unescape_other (c : ascii) (s : bytes) :
  c <> backslash -> c <> "x"%char ->
  unescape (backslash :: c :: s)
    = Raise (WTFError (str "Unexpected escape code: " ++ [c])).
Proof.
  intros Hb Hx. unfold unescape. cbn [length]. rewrite unescape_loop_S.
  destruct (decide _) as [_ | Hn]; [| cbn [length] in Hn; lia].
  cbn [lookup list_lookup Nat.add]. rewrite bool_decide_eq_true_2 by reflexivity. cbn [negb].
  now rewrite (bool_decide_eq_false_2 _ Hx), (bool_decide_eq_false_2 _ Hb).
Qed.

Lemma unescape_x_not_hex (a : ascii) (s : bytes) :
  hex_value a = None -> isspace a = false -> a <> "+"%char -> a <> "-"%char ->
  unescape (backslash :: "x"%char :: a :: s) = Raise ValueError.
Proof.
  intros Hh Hs Hp Hm. unfold unescape. cbn [length]. rewrite unescape_loop_S.
  destruct (decide _) as [_ | Hn]; [| cbn [length] in Hn; lia].
  cbn [lookup list_lookup Nat.add]. rewrite bool_decide_eq_true_2 by reflexivity. cbn [negb].
  rewrite bool_decide_eq_true_2 by reflexivity.
  change (take 2 (drop 2 (backslash :: "x"%char :: a :: s)))
    with (a :: take 1 s).
  rewrite (int_base16_not_hex a (take 1 s) Hh Hs Hp Hm); [reflexivity |].
  rewrite length_take. lia.
Qed.

(** C3 (as stated, refuted). A backslash at the end of the payload is not
    the malformed-escape error but an [IndexError]; and a [\x] followed by
    one hexadecimal digit at the end of the payload is decoded without any
    error. *)
Lemma unescape_truncated_escape_not_WTFError :
  unescape (str "a\") = Raise IndexError
  /\ unescape (str "a\x4") = Ok [ "a"%char; "004"%char ].
Proof. split; reflexivity. Qed.

(** C3 (amended). [unescape] copies a character other than the backslash
    verbatim, decodes a doubled backslash to one backslash and [\xHH] with
    two hexadecimal digits of either case to the byte of that value, and
    raises the malformed-escape [WTFError] when the backslash is followed by
    a character other than the backslash and [x].  A backslash at the end of
    the payload raises [IndexError], and [\x] at the end of the payload or
    before a character that is not a hexadecimal digit, white space or a
    sign raises [ValueError].  The loop always terminates. *)
Theorem unescape_forms :
  (forall (c : ascii) (s : bytes),
      c <> backslash -> unescape (c :: s) = let* r := unescape s in Ok (c :: r))
  /\ (forall s : bytes,
        unescape (backslash :: backslash :: s)
          = let* r := unescape s in Ok (backslash :: r))
  /\ (forall (h1 h2 : ascii) (v1 v2 : Z) (s : bytes),
        hex_value h1 = Some v1 -> hex_value h2 = Some v2 ->
        unescape (backslash :: "x"%char :: h1 :: h2 :: s)
          = let* r := unescape s in Ok (ascii_of_N (Z.to_N (16 * v1 + v2)) :: r))
  /\ (forall (c : ascii) (s : bytes),
        c <> backslash -> c <> "x"%char ->
        unescape (backslash :: c :: s)
          = Raise (WTFError (str "Unexpected escape code: " ++ [c])))
  /\ unescape [backslash] = Raise IndexError
  /\ unescape [backslash; "x"%char] = Raise ValueError
  /\ (forall (a : ascii) (s : bytes),
        hex_value a = None -> isspace a = false ->
        a <> "+"%char -> a <> "-"%char ->
        unescape (backslash :: "x"%char :: a :: s) = Raise ValueError)
  /\ (forall s : bytes, unescape s <> Diverge).
Proof.
  repeat split.
  - exact unescape_plain.
  - exact unescape_backslash.
  - exact unescape_hex.
  - exact unescape_other.
  - exact unescape_x_not_hex.
  - exact unescape_total.
Qed.

Lemma unescape_forms_witness :
  unescape (str "A\\\x4a\q") = Raise (WTFError (str "Unexpected escape code: q")).
Proof.
  destruct unescape_forms as (Hplain & Hbs & Hhex & Hother & _).
  change (str "A\\\x4a\q")
    with ("A"%char :: backslash :: backslash
          :: backslash :: "x"%char :: "4"%char :: "a"%char
          :: backslash :: "q"%char :: []).
  rewrite Hplain by discriminate.
  rewrite Hbs.
  rewrite (Hhex "4"%char "a"%char 4 10) by reflexivity.
  rewrite (Hother "q"%char []) by discriminate.
  reflexivity.
Defined.

(** ** [isValidBlockType] *)

(** The test of [isValidBlockType] compares the whole tag, so it only
    depends on the first byte: a four-byte tag is valid exactly when its
    first byte is in [A..Y]. *)
Lemma isValidBlockType_first_byte (a b c d : ascii) :
  isValidBlockType [a; b; c; d]
    = Ok ((ord "A"%char <=? ord a) && (ord a <? ord "Z"%char)).
Proof.
  destruct a as [[] [] [] [] [] [] [] []]; reflexivity.
Qed.

(** C4 (the code departs from the claim). The validity of a four-byte tag
    depends on its first byte only.  The unrecognized tag [Aaaa] has three
    bytes outside [A..Z], yet the block is skipped; the unrecognized tag
    [ZZZZ] is made of upper-case letters, yet it raises the invalid-tag
    error. *)
Theorem isValidBlockType_checks_whole_tag :
  (forall a b c d : ascii,
      isValidBlockType [a; b; c; d]
        = Ok ((ord "A"%char <=? ord a) && (ord a <? ord "Z"%char)))
  /\ (forall descumm : bytes -> option (Z * bytes * bytes),
        _processBlock descumm 1 (Processor_init (File (block "Aaaa" []) 0))
          = Ok (Processor_init (File (block "Aaaa" []) 8)))
  /\ (forall descumm : bytes -> option (Z * bytes * bytes),
        _processBlock descumm 1 (Processor_init (File (block "ZZZZ" []) 0))
          = Raise (WTFError (str "Invalid block type at offset 0"))).
Proof.
  split; [exact isValidBlockType_first_byte | split; intros descumm; reflexivity].
Qed.

(** ** [_readASCIIZ] *)

(** At the end of the stream [read(1)] returns the empty string, which is
    not the terminator: the loop goes on for ever. *)
Lemma _readASCIIZ_loop_exhausted (s : stream) :
  read s 1 = Ok ([], s) ->
  forall (fuel : nat) (out : bytes), _readASCIIZ_loop fuel s out = Diverge.
Proof.
  intros Hr fuel. induction fuel as [| fuel IH]; intros out; [reflexivity |].
  cbn [_readASCIIZ_loop]. rewrite Hr. cbn [bind].
  rewrite bool_decide_eq_false_2 by discriminate. apply IH.
Qed.

Lemma file_read_1 (data : bytes) (pos : Z) :
  0 <= pos ->
  file_read data pos 1
    = match data !! Z.to_nat pos with
      | Some c => ([c], File data (pos + 1))
      | None => ([], File data (pos + 0))
      end.
Proof.
  intros Hpos. unfold file_read. change (1 <? 0) with false. cbv iota.
  change (Z.to_nat 1) with 1%nat.
  destruct (data !! Z.to_nat pos) as [c |] eqn:E.
  - rewrite (drop_S _ _ _ E). reflexivity.
  - apply lookup_ge_None in E. rewrite drop_ge by exact E. reflexivity.
Qed.

(** A file with no zero byte from the position on: the reader never
    returns. *)
Lemma _readASCIIZ_loop_unterminated (data : bytes) :
  forall (fuel : nat) (pos : Z) (out : bytes),
    0 <= pos -> NUL ∉ drop (Z.to_nat pos) data ->
    _readASCIIZ_loop fuel (File data pos) out = Diverge.
Proof.
  induction fuel as [| fuel IH]; intros pos out Hpos Hn; [reflexivity |].
  cbn [_readASCIIZ_loop read]. rewrite file_read_1 by exact Hpos.
  destruct (data !! Z.to_nat pos) as [c |] eqn:E; cbn [bind].
  - rewrite (drop_S _ _ _ E) in Hn.
    rewrite bool_decide_eq_false_2
      by (intros Heq; apply Hn; injection Heq as ->; apply list_elem_of_here).
    apply IH; [lia |].
    replace (Z.to_nat (pos + 1)) with (S (Z.to_nat pos)) by lia.
    intros Hin. apply Hn. now apply list_elem_of_further.
  - rewrite bool_decide_eq_false_2 by discriminate.
    rewrite Z.add_0_r. now apply IH.
Qed.

(** A file with a zero byte after [pre]: the reader returns [pre] and
    leaves the position after the zero byte. *)
Lemma _readASCIIZ_loop_terminated (data pre rest : bytes) :
  forall (fuel : nat) (pos : Z) (out : bytes),
    0 <= pos -> drop (Z.to_nat pos) data = pre ++ NUL :: rest -> NUL ∉ pre ->
    (length pre < fuel)%nat ->
    _readASCIIZ_loop fuel (File data pos) out
      = Ok (out ++ pre, File data (pos + Z.of_nat (length pre) + 1)).
Proof.
  intros fuel. revert pre.
  induction fuel as [| fuel IH]; intros pre pos out Hpos Hd Hn Hf; [lia |].
  cbn [_readASCIIZ_loop read]. rewrite file_read_1 by exact Hpos.
  assert (Hl : data !! Z.to_nat pos = (pre ++ NUL :: rest) !! 0%nat).
  { now rewrite <- Hd, lookup_drop, Nat.add_0_r. }
  destruct pre as [| c pre].
  - cbn in Hl. rewrite Hl. cbn [bind].
    rewrite bool_decide_eq_true_2 by reflexivity.
    rewrite app_nil_r. cbn [length].
    replace (pos + Z.of_nat 0 + 1) with (pos + 1) by lia. reflexivity.
  - cbn in Hl. rewrite Hl. cbn [bind].
    rewrite bool_decide_eq_false_2
      by (intros Heq; apply Hn; injection Heq as ->; apply list_elem_of_here).
    rewrite (IH pre (pos + 1) (out ++ [c])).
    + rewrite <- app_assoc. cbn [length app].
      replace (pos + 1 + Z.of_nat (length pre) + 1)
        with (pos + Z.of_nat (S (length pre)) + 1) by lia.
      reflexivity.
    + lia.
    + replace (Z.to_nat (pos + 1)) with (S (Z.to_nat pos)) by lia.
      change (S (Z.to_nat pos)) with (1 + Z.to_nat pos)%nat.
      rewrite Nat.add_comm, <- drop_drop, Hd. reflexivity.
    + intros Hin. apply Hn. now apply list_elem_of_further.
    + cbn [length] in Hf. lia.
Qed.

(** C5 (the code departs from the claim). The name [Foo] is not followed by
    a zero byte before the end of the stream: whatever the number of
    iterations allowed, [_readASCIIZ] does not return and raises nothing. *)
Theorem readASCIIZ_unterminated_never_returns :
  forall fuel : nat,
    _readASCIIZ fuel (Processor_init (File (str "Foo") 0)) = Diverge
    /\ _readASCIIZ fuel
         (Processor_init (DecryptingStream (File (str "Foo") 0) 0)) = Diverge.
Proof.
  intros fuel. unfold _readASCIIZ. cbn [_infile Processor_init]. split.
  - rewrite _readASCIIZ_loop_unterminated; [reflexivity | lia |].
    vm_compute. intros H. repeat (apply elem_of_cons in H as [H | H]; [discriminate |]).
    now apply elem_of_nil in H.
  - destruct fuel as [| [| [| fuel]]]; try reflexivity.
    cbn [_readASCIIZ_loop]. 
    change (read (DecryptingStream (File (str "Foo") 0) 0) 1)
      with (Ok (str "F", DecryptingStream (File (str "Foo") 1) 0)).
    cbn [bind]. rewrite bool_decide_eq_false_2 by discriminate.
    change (read (DecryptingStream (File (str "Foo") 1) 0) 1)
      with (Ok (str "o", DecryptingStream (File (str "Foo") 2) 0)).
    cbn [bind]. rewrite bool_decide_eq_false_2 by discriminate.
    change (read (DecryptingStream (File (str "Foo") 2) 0) 1)
      with (Ok (str "o", DecryptingStream (File (str "Foo") 3) 0)).
    cbn [bind]. rewrite bool_decide_eq_false_2 by discriminate.
    rewrite _readASCIIZ_loop_exhausted; reflexivity.
Qed.

(** ** The walker *)

Lemma struct_unpack_BE_I_spec (raw : bytes) (n : Z) :
  struct_unpack_BE_I raw = Ok n -> length raw = 4%nat /\ 0 <= n < 2 ^ 32.
Proof.
  destruct raw as [| b0 [| b1 [| b2 [| b3 [| ? ?]]]]]; cbn; try discriminate.
  intros H. injection H as <-. split; [reflexivity |].
  pose proof (ord_range b0). pose proof (ord_range b1).
  pose proof (ord_range b2). pose proof (ord_range b3). lia.
Qed.

(** The header reads do not touch the registry, and leave the stream after
    the tag and the four bytes of the size. *)
Lemma read_header_spec (self self1 : Processor) (block_type : bytes) (raw_size : Z) :
  read_header self = Ok (block_type, raw_size, self1) ->
  tell (_infile self1)
    = tell (_infile self) + Z.of_nat (length block_type) + 4
  /\ 0 <= raw_size < 2 ^ 32
  /\ (length block_type <= 4)%nat
  /\ _obj_dict self1 = _obj_dict self
  /\ _current_obj self1 = _current_obj self
  /\ heap self1 = heap self
  /\ stdout self1 = stdout self.
Proof.
  unfold read_header. intros H.
  destruct (read (_infile self) 4) as [[bt f] | |] eqn:E1; try discriminate.
  cbn [bind] in H. cbn [set_infile _infile] in H.
  destruct (read f 4) as [[raw f'] | |] eqn:E2; try discriminate.
  cbn [bind] in H.
  destruct (struct_unpack_BE_I raw) as [n | |] eqn:E3; try discriminate.
  cbn [bind] in H. injection H as <- <- <-.
  apply struct_unpack_BE_I_spec in E3 as [Hl Hn].
  pose proof (read_tell _ _ _ _ E1) as T1. pose proof (read_tell _ _ _ _ E2) as T2.
  pose proof (read_length _ 4 _ _ ltac:(lia) E1) as L1.
  cbn [set_infile _infile _obj_dict _current_obj heap stdout].
  repeat split; try assumption; try lia.
Qed.

(** [_processBlock] after its header, branch by branch. *)
Section Walker.

Variable descumm : bytes -> option (Z * bytes * bytes).

Ltac header H :=
  unfold read_header in H; cbn [_processBlock];
  destruct (read (_infile _) 4) as [[? ?] | |]; try discriminate H;
  cbn [bind] in H |- *;
  destruct (read _ 4) as [[? ?] | |]; try discriminate H;
  cbn [bind] in H |- *;
  destruct (struct_unpack_BE_I _) as [? | |]; try discriminate H;
  cbn [bind] in H |- *; injection H as -> -> <-.

Lemma _processBlock_container (fuel : nat) (self self1 : Processor)
    (block_type : bytes) (raw_size : Z) :
  read_header self = Ok (block_type, raw_size, self1) ->
  block_type ∈ [str "LECF"; str "LFLF"; str "ROOM"] ->
  _processBlock descumm (S fuel) self
    = _processSubBlocks (_processBlock descumm fuel) fuel (raw_size - 8) self1.
Proof.
  intros H Hin. header H.
  unfold in_tuple. now rewrite (bool_decide_eq_true_2 _ Hin).
Qed.

Lemma _processBlock_OBCD (fuel : nat) (self self1 : Processor) (raw_size : Z) :
  read_header self = Ok (str "OBCD", raw_size, self1) ->
  _processBlock descumm (S fuel) self
    = _processSubBlocks (_processBlock descumm fuel) fuel (raw_size - 8)
        (new_current_obj (tell (_infile self)) self1).
Proof.
  intros H. header H. reflexivity.
Qed.

Lemma _processBlock_OBNA (fuel : nat) (self self1 : Processor) (raw_size : Z) :
  read_header self = Ok (str "OBNA", raw_size, self1) ->
  _processBlock descumm (S fuel) self
    = let* (s, self2) := _readASCIIZ fuel self1 in set_current_name s self2.
Proof.
  intros H. header H. reflexivity.
Qed.


Lemma _processBlock_unrecognized (fuel : nat) (self self1 : Processor)
    (block_type : bytes) (raw_size : Z) :
  read_header self = Ok (block_type, raw_size, self1) ->
  block_type ∉ [str "LECF"; str "LFLF"; str "ROOM"; str "SCRP"; str "LSCR";
                str "ENCD"; str "EXCD"; str "VERB"; str "OBCD"; str "OBNA"] ->
  _processBlock descumm (S fuel) self
    = let* valid := isValidBlockType block_type in
      if negb valid then
        Raise (WTFError (str "Invalid block type at offset "
                         ++ fmt_X (tell (_infile self))))
      else
        let* f := seek (_infile self1) (raw_size - 8) SEEK_CUR in
        Ok (set_infile f self1).
Proof.
  intros H Hnin. header H. unfold in_tuple.
  rewrite !bool_decide_eq_false_2; [reflexivity | | | |];
    intros Hx; apply Hnin; repeat rewrite elem_of_cons in Hx;
    repeat rewrite elem_of_cons; repeat rewrite elem_of_nil in Hx; tauto.
Qed.

End Walker.

(** ** The sub-block loop *)

Section SubBlocks.

Variable pb : Processor -> outcome Processor.

(** The loop leaves the stream at or after the end. *)
Lemma _processSubBlocks_loop_exit (fuel : nat) (end_ : Z) (self self' : Processor) :
  _processSubBlocks_loop pb fuel end_ self = Ok self' ->
  end_ <= tell (_infile self').
Proof.
  revert self. induction fuel as [| fuel IH]; intros self H; cbn [_processSubBlocks_loop] in H.
  - destruct (tell (_infile self) <? end_) eqn:E; [discriminate |].
    injection H as <-. apply Z.ltb_ge in E. exact E.
  - destruct (tell (_infile self) <? end_) eqn:E.
    + destruct (pb self) as [self1 | |]; try discriminate. cbn [bind] in H.
      exact (IH _ H).
    + injection H as <-. apply Z.ltb_ge in E. exact E.
Qed.

(** The advances of the iterations add up to the advance of the loop. *)
Lemma _processSubBlocks_loop_sum (fuel : nat) (end_ : Z) (self self' : Processor) :
  _processSubBlocks_loop pb fuel end_ self = Ok self' ->
  sum_list (subblock_sizes pb fuel end_ self)
    = tell (_infile self') - tell (_infile self).
Proof.
  revert self. induction fuel as [| fuel IH]; intros self H;
    cbn [_processSubBlocks_loop subblock_sizes] in H |- *.
  - destruct (tell (_infile self) <? end_); [discriminate |].
    injection H as <-. cbn. lia.
  - destruct (tell (_infile self) <? end_).
    + destruct (pb self) as [self1 | |]; try discriminate. cbn [bind] in H.
      unfold sum_list in *. cbn [foldr]. rewrite (IH _ H). lia.
    + injection H as <-. cbn. lia.
Qed.

Lemma _processSubBlocks_spec (fuel : nat) (size : Z) (self : Processor) :
  let end_ := tell (_infile self) + size in
  match _processSubBlocks_loop pb fuel end_ self with
  | Ok self' =>
      if tell (_infile self') >? end_
      then _processSubBlocks pb fuel size self = Raise overshot
      else _processSubBlocks pb fuel size self = Ok self'
           /\ tell (_infile self') = end_
           /\ sum_list (subblock_sizes pb fuel end_ self) = size
  | Raise e => _processSubBlocks pb fuel size self = Raise e
  | Diverge => _processSubBlocks pb fuel size self = Diverge
  end.
Proof.
  intros end_. unfold _processSubBlocks. fold end_.
  destruct (_processSubBlocks_loop pb fuel end_ self) as [self' | e |] eqn:E;
    cbn [bind]; try reflexivity.
  pose proof (_processSubBlocks_loop_exit _ _ _ _ E) as Hx.
  pose proof (_processSubBlocks_loop_sum _ _ _ _ E) as Hs.
  destruct (tell (_infile self') >? end_) eqn:G; [reflexivity |].
  assert (tell (_infile self') = end_) by lia.
  repeat split; [assumption |]. subst end_. lia.
Qed.

End SubBlocks.

Lemma new_current_obj_infile (hdr_offset : Z) (self : Processor) :
  _infile (new_current_obj hdr_offset self) = _infile self.
Proof. reflexivity. Qed.

(** A container block hands its payload to the sub-block loop, which
    starts eight bytes after the header offset. *)
Lemma container_dispatch
    (descumm : bytes -> option (Z * bytes * bytes)) (fuel : nat)
    (self self1 : Processor) (block_type : bytes) (declared_size : Z) :
  read_header self = Ok (block_type, declared_size, self1) ->
  block_type ∈ [str "LECF"; str "LFLF"; str "ROOM"; str "OBCD"] ->
  let start := if bool_decide (block_type = str "OBCD")
               then new_current_obj (tell (_infile self)) self1 else self1 in
  _processBlock descumm (S fuel) self
    = _processSubBlocks (_processBlock descumm fuel) fuel (declared_size - 8) start
  /\ tell (_infile start) = tell (_infile self) + 8
  /\ 0 <= declared_size.
Proof.
  intros H Hin start.
  pose proof (read_header_spec _ _ _ _ H) as (Ht & Hn & _).
  assert (Hlen : length block_type = 4%nat).
  { repeat (apply elem_of_cons in Hin as [-> | Hin]; [reflexivity |]).
    now apply elem_of_nil in Hin. }
  rewrite Hlen in Ht.
  assert (Hstart : tell (_infile start) = tell (_infile self1)).
  { subst start. now destruct (bool_decide _). }
  split; [| split; [rewrite Hstart, Ht; lia | lia]].
  subst start. destruct (bool_decide (block_type = str "OBCD")) eqn:E.
  - apply bool_decide_eq_true in E. subst block_type.
    exact (_processBlock_OBCD descumm fuel _ _ _ H).
  - apply bool_decide_eq_false in E.
    apply (_processBlock_container descumm fuel _ _ _ _ H).
    repeat rewrite elem_of_cons in Hin. repeat rewrite elem_of_cons.
    rewrite elem_of_nil in Hin. tauto.
Qed.

Lemma _processSubBlocks_loop_done (pb : Processor -> outcome Processor)
    (fuel : nat) (end_ : Z) (self : Processor) :
  end_ <= tell (_infile self) -> _processSubBlocks_loop pb fuel end_ self = Ok self.
Proof.
  intros H. apply Z.ltb_ge in H.
  destruct fuel; cbn [_processSubBlocks_loop]; now rewrite H.
Qed.

(** C6. For a container block (the containers [LECF], [LFLF], [ROOM] and
    the object container [OBCD]) whose processing completes, the stream is
    left exactly at [header_offset + declared_size], and the bytes consumed
    by the sub-blocks add up to [payload_size]; the loop runs while the
    position is below that end; and when the loop ends beyond it, the
    overshoot [WTFError] is raised. *)
Theorem container_ends_at_declared_size
    (descumm : bytes -> option (Z * bytes * bytes)) (fuel : nat)
    (self self1 : Processor) (block_type : bytes) (declared_size : Z) :
  read_header self = Ok (block_type, declared_size, self1) ->
  block_type ∈ [str "LECF"; str "LFLF"; str "ROOM"; str "OBCD"] ->
  let header_offset := tell (_infile self) in
  let end_ := header_offset + declared_size in
  let start := if bool_decide (block_type = str "OBCD")
               then new_current_obj header_offset self1 else self1 in
  let sub := _processBlock descumm fuel in
  tell (_infile start) + (declared_size - 8) = end_
  /\ (forall self' : Processor,
        _processBlock descumm (S fuel) self = Ok self' ->
        tell (_infile self') = end_
        /\ _processSubBlocks_loop sub fuel end_ start = Ok self'
        /\ sum_list (subblock_sizes sub fuel end_ start) = declared_size - 8)
  /\ (forall self' : Processor,
        _processSubBlocks_loop sub fuel end_ start = Ok self' ->
        end_ <= tell (_infile self')
        /\ (end_ < tell (_infile self') ->
            _processBlock descumm (S fuel) self = Raise overshot)
        /\ (tell (_infile self') = end_ ->
            _processBlock descumm (S fuel) self = Ok self')).
Proof.
  intros H Hin header_offset end_ start sub.
  destruct (container_dispatch descumm fuel _ _ _ _ H Hin) as (Hpb & Hstart & _).
  fold header_offset start sub in Hpb, Hstart.
  assert (Hend : tell (_infile start) + (declared_size - 8) = end_)
    by (subst end_; lia).
  pose proof (_processSubBlocks_spec sub fuel (declared_size - 8) start) as Hspec.
  cbv zeta in Hspec. rewrite Hend in Hspec.
  split; [exact Hend | split].
  - intros self' Hok. rewrite Hpb in Hok.
    destruct (_processSubBlocks_loop sub fuel end_ start) as [s'' | e |] eqn:E.
    + destruct (tell (_infile s'') >? end_).
      * rewrite Hspec in Hok. discriminate.
      * destruct Hspec as (Hr & Hp & Hs). rewrite Hr in Hok.
        injection Hok as <-. auto.
    + rewrite Hspec in Hok. discriminate.
    + rewrite Hspec in Hok. discriminate.
  - intros self' Hloop. rewrite Hloop in Hspec. rewrite Hpb.
    pose proof (_processSubBlocks_loop_exit _ _ _ _ _ Hloop) as Hx.
    split; [exact Hx | split].
    + intros Hgt. destruct (tell (_infile self') >? end_) eqn:G; [exact Hspec | lia].
    + intros Heq. destruct (tell (_infile self') >? end_) eqn:G; [lia | apply Hspec].
Qed.

Lemma container_ends_at_declared_size_witness :
  exists self' : Processor,
    _processBlock descumm_echo 8 (Processor_init (File example_archive 0)) = Ok self'
    /\ tell (_infile self') = 0 + 51.
Proof.
  pose proof (container_ends_at_declared_size descumm_echo 7
                (Processor_init (File example_archive 0))
                (Processor_init (File example_archive 8))
                (str "LECF") 51 eq_refl ltac:(apply list_elem_of_here))
    as (_ & Hok & _).
  eexists. split; [vm_compute; reflexivity |].
  refine (proj1 (Hok _ _)). vm_compute. reflexivity.
Defined.

(** C2 (as stated, refuted). The block [ABCD] declares the size 0, below
    the header size 8: no error is raised, and the skip is a relative seek
    of -8 bytes, which puts the stream back on the header. *)
Lemma undersized_unrecognized_block_not_rejected :
  _processBlock descumm_echo 1 (Processor_init (File (str "ABCD" ++ be32 0) 0))
    = Ok (Processor_init (File (str "ABCD" ++ be32 0) 0))
  /\ seek (File (str "ABCD" ++ be32 0) 8) (0 - hdr_size) SEEK_CUR
     = Ok (File (str "ABCD" ++ be32 0) 0).
Proof. split; reflexivity. Qed.

(** C2 (amended). A container block ([LECF], [LFLF], [ROOM]) or object
    container ([OBCD]) whose declared size is below the header size 8 raises
    the overshoot [WTFError], before any sub-block is read; a declared size
    is never negative, so no read is given a negative length. *)
Theorem undersized_container_overshoots
    (descumm : bytes -> option (Z * bytes * bytes)) (fuel : nat)
    (self self1 : Processor) (block_type : bytes) (declared_size : Z) :
  read_header self = Ok (block_type, declared_size, self1) ->
  block_type ∈ [str "LECF"; str "LFLF"; str "ROOM"; str "OBCD"] ->
  declared_size < hdr_size ->
  _processBlock descumm (S fuel) self = Raise overshot
  /\ 0 <= declared_size.
Proof.
  intros H Hin Hlt. unfold hdr_size in Hlt.
  destruct (container_dispatch descumm fuel _ _ _ _ H Hin) as (Hpb & Hstart & Hn).
  split; [| exact Hn]. rewrite Hpb. unfold _processSubBlocks.
  rewrite _processSubBlocks_loop_done by lia. cbn [bind].
  destruct (_ >? _) eqn:G; [reflexivity | lia].
Qed.

Lemma undersized_container_overshoots_witness :
  _processBlock descumm_echo 1 (Processor_init (File (str "ROOM" ++ be32 7) 0))
    = Raise overshot.
Proof.
  refine (proj1 (undersized_container_overshoots descumm_echo 0
                   (Processor_init (File (str "ROOM" ++ be32 7) 0))
                   (Processor_init (File (str "ROOM" ++ be32 7) 8))
                   (str "ROOM") 7 eq_refl _ _)).
  - apply list_elem_of_further, list_elem_of_further, list_elem_of_here.
  - reflexivity.
Defined.

(** ** The name block *)

Lemma mapM_Raise {A B : Type} (f : A -> outcome B) (l : list A) (e : exn) :
  (forall x e', f x = Raise e' -> e' = ValueError) ->
  mapM f l = Raise e -> e = ValueError.
Proof.
  intros Hf. induction l as [| x l IH]; cbn; [discriminate |].
  destruct (f x) as [y | e' |] eqn:E; cbn [bind].
  - destruct (mapM f l) as [ys | e' |]; cbn [bind]; try discriminate.
    intros H. injection H as <-. now apply IH.
  - intros H. injection H as <-. exact (Hf _ _ E).
  - discriminate.
Qed.

(** The only exception of a read is the [ValueError] of [chr], for a key
    that is not a byte. *)
Lemma read_Raise (s : stream) (n : Z) (e : exn) :
  read s n = Raise e -> e = ValueError.
Proof.
  induction s as [data pos | s IH k]; cbn [read]; [discriminate |].
  destruct (read s n) as [[d s'] | e' |]; cbn [bind].
  - destruct (k =? 0); cbn [bind]; [discriminate |].
    destruct (mapM _ d) as [d' | e' |] eqn:E; cbn [bind]; try discriminate.
    intros H. injection H as <-. refine (mapM_Raise _ _ _ _ E).
    intros x e0. unfold chr. destruct ((0 <=? _) && _); [discriminate |].
    intros H0. now injection H0 as <-.
  - intros H. injection H as <-. now apply IH.
  - discriminate.
Qed.

Lemma _readASCIIZ_loop_Raise (fuel : nat) (s : stream) (out : bytes) (e : exn) :
  _readASCIIZ_loop fuel s out = Raise e -> e = ValueError.
Proof.
  revert s out. induction fuel as [| fuel IH]; intros s out; cbn [_readASCIIZ_loop];
    [discriminate |].
  destruct (read s 1) as [[ch s'] | e' |] eqn:E; cbn [bind].
  - destruct (bool_decide (ch = [NUL])); [discriminate | apply IH].
  - intros H. injection H as <-. exact (read_Raise _ _ _ E).
  - discriminate.
Qed.

(** C7 (as stated, refuted). A name block met with no object in context
    (here: the whole input, and the only block of the root container): the
    name is read, and the assignment then fails with the unchecked
    [AttributeError], which [main] does not catch. *)
Lemma name_block_without_object_AttributeError :
  _processBlock descumm_echo 5
      (Processor_init (File (block "OBNA" (str "Foo" ++ [NUL])) 0))
    = Raise AttributeError
  /\ main descumm_echo 6 5
       (Some (block "LECF" (block "OBNA" (str "Foo" ++ [NUL]))))
     = Raise AttributeError.
Proof. split; reflexivity. Qed.

(** C7 (amended). When a name block is processed while no object is in
    context, processing never proceeds: the name is read first, and when the
    reader returns, the assignment of the name fails with [AttributeError];
    there is no explicit check, and no [WTFError] is raised. *)
Theorem OBNA_without_object
    (descumm : bytes -> option (Z * bytes * bytes)) (fuel : nat)
    (self self1 : Processor) (declared_size : Z) :
  read_header self = Ok (str "OBNA", declared_size, self1) ->
  _current_obj self = None ->
  (forall (s : bytes) (self2 : Processor),
      _readASCIIZ fuel self1 = Ok (s, self2) ->
      _processBlock descumm (S fuel) self = Raise AttributeError)
  /\ (forall self' : Processor, _processBlock descumm (S fuel) self <> Ok self')
  /\ (forall msg : bytes, _processBlock descumm (S fuel) self <> Raise (WTFError msg)).
Proof.
  intros H Hnone.
  pose proof (read_header_spec _ _ _ _ H) as (_ & _ & _ & _ & Hc & _).
  rewrite (_processBlock_OBNA descumm fuel _ _ _ H).
  unfold _readASCIIZ.
  destruct (_readASCIIZ_loop fuel (_infile self1) []) as [[s f] | e |] eqn:E;
    cbn [bind].
  - assert (Hs : set_current_name s (set_infile f self1) = Raise AttributeError).
    { unfold set_current_name. cbn [set_infile _current_obj]. now rewrite Hc, Hnone. }
    rewrite Hs. repeat split; intros; discriminate.
  - apply _readASCIIZ_loop_Raise in E. subst e.
    repeat split; intros; discriminate.
  - repeat split; intros; discriminate.
Qed.

Lemma OBNA_without_object_witness :
  _processBlock descumm_echo 5
      (Processor_init (File (block "OBNA" (str "Foo" ++ [NUL])) 0))
    = Raise AttributeError.
Proof.
  refine (proj1 (OBNA_without_object descumm_echo 4
                   (Processor_init (File (block "OBNA" (str "Foo" ++ [NUL])) 0))
                   (Processor_init (File (block "OBNA" (str "Foo" ++ [NUL])) 8))
                   12 eq_refl eq_refl)
                (str "Foo")
                (Processor_init (File (block "OBNA" (str "Foo" ++ [NUL])) 12)) _).
  reflexivity.
Defined.

(** ** Objects and the report *)

(** The assignment of a verb script replaces whatever the slot held. *)
Lemma set_current_scripts_replaces (result : bytes) (self self' : Processor) (l : nat) :
  _current_obj self = Some l -> (l < length (heap self))%nat ->
  set_current_scripts result self = Ok self' ->
  scripts (deref (heap self') l) = Some result.
Proof.
  intros Hc Hl. unfold set_current_scripts. rewrite Hc.
  intros H. injection H as <-. unfold deref at 1. cbn [set_heap heap].
  now rewrite list_lookup_insert_eq.
Qed.




(** C8 (as stated, refuted). The object of [no_verb_archive] has a name and
    no verb script: its [scripts] slot is unset, not empty, and the report
    fails with [AttributeError], which [main] does not catch. *)
Lemma report_fails_without_verb_script :
  (let* self' := _processBlock descumm_echo 8
                   (Processor_init (File no_verb_archive 0)) in
   Ok (heap self'))
    = Ok [ {| name := Some (str "Foo"); scripts := None |} ]
  /\ process descumm_echo 8 (Processor_init (File no_verb_archive 0))
     = Raise AttributeError
  /\ main descumm_echo 8 5 (Some no_verb_archive) = Raise AttributeError.
Proof. repeat split; vm_compute; reflexivity. Qed.

Lemma emit_app (t1 t2 : bytes) (self : Processor) :
  emit t2 (emit t1 self) = emit (t1 ++ t2) self.
Proof. unfold emit. cbn. now rewrite app_assoc. Qed.

Lemma print_emit (line : bytes) (self : Processor) :
  print line self = emit (line ++ [newline]) self.
Proof. reflexivity. Qed.

Lemma process_loop_emits (items : list (Z * nat)) (self : Processor) :
  (forall item, item ∈ items ->
     is_Some (name (deref (heap self) item.2))
     /\ is_Some (scripts (deref (heap self) item.2))) ->
  process_loop items self
    = Ok (emit (concat (map (report_entry (heap self)) items)) self).
Proof.
  revert self. induction items as [| [key l] items IH]; intros self Hset.
  - cbn. unfold emit. rewrite app_nil_r. now destruct self.
  - destruct (Hset (key, l) (list_elem_of_here _ _)) as [[nm Hn] [sc Hs]].
    cbn [snd] in Hn, Hs. cbn [process_loop]. rewrite Hn.
    rewrite print_emit. cbn [heap emit]. rewrite Hs.
    rewrite print_emit, emit_app. rewrite IH.
    + rewrite emit_app. cbn [heap emit map concat].
      unfold report_entry at 2. cbn [fst snd]. rewrite Hn, Hs. cbn [default].
      do 2 f_equal. repeat rewrite <- app_assoc. reflexivity.
    + intros item Hin. cbn [heap emit]. apply Hset. now apply list_elem_of_further.
Qed.

(** C8 (amended). A Game Object Record is created with both slots unset
    (its [scripts] is absent, not the empty text), as the current object and
    under its header offset in the registry; and the final report succeeds
    for registered objects whose name and scripts have both been set,
    printing for each its offset, its name and its script report. *)
Theorem report_when_slots_set :
  (forall (hdr_offset : Z) (self : Processor),
      let self' := new_current_obj hdr_offset self in
      exists l : nat,
        _current_obj self' = Some l
        /\ _obj_dict self' !! hdr_offset = Some l
        /\ heap self' !! l = Some {| name := None; scripts := None |})
  /\ (forall (items : list (Z * nat)) (self : Processor),
        (forall item, item ∈ items ->
           is_Some (name (deref (heap self) item.2))
           /\ is_Some (scripts (deref (heap self) item.2))) ->
        process_loop items self
          = Ok (emit (concat (map (report_entry (heap self)) items)) self)).
Proof.
  split.
  - intros hdr_offset self self'. exists (length (heap self)).
    subst self'. unfold new_current_obj. cbn [_current_obj _obj_dict heap].
    repeat split.
    + apply lookup_insert_eq.
    + now rewrite lookup_app_r, Nat.sub_diag by lia.
  - exact process_loop_emits.
Qed.

Lemma report_when_slots_set_witness :
  (let* self' := process descumm_echo 8 (Processor_init (File example_archive 0)) in
   Ok (stdout self'))
  = Ok (str "***** SCRP SCRIPT AT: 00000025 *****" ++ [newline]
        ++ fragment (str "zzA") ++ [newline]
        ++ str "***** OBJECT AT: 00000008 (Foo) *****" ++ [newline]
        ++ fragment (str "a") ++ [newline]).
Proof.
  unfold process.
  destruct (_processBlock descumm_echo 8 (Processor_init (File example_archive 0)))
    as [self' | |] eqn:E; try (vm_compute in E; discriminate E).
  cbn [bind].
  assert (Hh : heap self' = [ {| name := Some (str "Foo");
                                 scripts := Some (fragment (str "a")) |} ]
               /\ map_to_list (_obj_dict self') = [(8, 0%nat)]
               /\ stdout self' = str "***** SCRP SCRIPT AT: 00000025 *****" ++ [newline]
                                  ++ fragment (str "zzA") ++ [newline]).
  { vm_compute in E. injection E as <-. repeat split; vm_compute; reflexivity. }
  destruct Hh as (Hh & Hd & Hs). rewrite Hd.
  rewrite (proj2 report_when_slots_set).
  - cbn [bind emit stdout]. rewrite Hs, Hh. vm_compute. reflexivity.
  - intros item Hin. apply list_elem_of_singleton in Hin. subst item.
    rewrite Hh. split; eexists; reflexivity.
Defined.

(** The example of the specification: the object at offset [0x100] is named
    [Foo] and its script report has the two entries [Hello] and [AB]. *)
Example hello_archive_object :
  (let* self' := _processBlock descumm_hello 8 (Processor_init (File hello_archive 0)) in
   Ok (map_to_list (_obj_dict self'), heap self'))
  = Ok ([(256, 0%nat)],
        [ {| name := Some (str "Foo");
             scripts := Some (fragment (str "Hello") ++ fragment (str "AB")) |} ]).
Proof. vm_compute. reflexivity. Qed.

(** ** [TEXT_RE.findall]: the scan of a string of [n] characters takes at
    most [n] steps *)

Lemma strip_prefix_length (p s r : bytes) :
  strip_prefix p s = Some r -> (length s = length p + length r)%nat.
Proof.
  revert s. induction p as [| x p IH]; intros s H; cbn in H.
  - injection H as ->. reflexivity.
  - destruct s as [| y s]; [discriminate |].
    destruct (bool_decide (x = y)); [| discriminate].
    cbn [length]. rewrite (IH _ H). lia.
Qed.

Lemma span_not_quote_length (s g r : bytes) :
  span_not_quote s = (g, r) -> (length s = length g + length r)%nat.
Proof.
  revert g r. induction s as [| c s IH]; intros g r H; cbn in H.
  - injection H as <- <-. reflexivity.
  - destruct (bool_decide (c = dquote)).
    + injection H as <- <-. reflexivity.
    + destruct (span_not_quote s) as [g' r'] eqn:E. injection H as <- <-.
      cbn [length]. rewrite (IH _ _ eq_refl). lia.
Qed.

(** A match consumes at least the nine characters of its delimiters and
    one character of the group. *)
Lemma TEXT_RE_match_length (s g rest : bytes) :
  TEXT_RE_match s = Some (g, rest) ->
  (length s = 8 + length g + length rest)%nat /\ g <> [] /\ dquote ∉ g.
Proof.
  unfold TEXT_RE_match. intros H.
  destruct (strip_prefix _ s) as [s1 |] eqn:Ep; [| discriminate].
  apply strip_prefix_length in Ep.
  change (length (str "Text(" ++ [dquote])) with 6%nat in Ep.
  destruct (span_not_quote s1) as [g' r'] eqn:Es.
  assert (Hq : dquote ∉ g').
  { clear - Es. revert g' r' Es. induction s1 as [| c s1 IH]; intros g' r' Es; cbn in Es.
    - injection Es as <- <-. apply not_elem_of_nil.
    - destruct (bool_decide (c = dquote)) eqn:Ec.
      + injection Es as <- <-. apply not_elem_of_nil.
      + destruct (span_not_quote s1) as [g0 r0]. injection Es as <- <-.
        apply bool_decide_eq_false in Ec. apply not_elem_of_cons. split.
        * congruence.
        * exact (IH _ _ eq_refl). }
  apply span_not_quote_length in Es.
  destruct g' as [| c0 g']; [discriminate |].
  destruct r' as [| q [| c r']]; try discriminate.
  destruct (bool_decide (c = ")"%char)); [| discriminate].
  injection H as <- <-. cbn [length] in *.
  repeat split; [lia | discriminate | exact Hq].
Qed.

Lemma TEXT_RE_findall_from_fuel (fuel fuel' : nat) (s : bytes) :
  (length s <= fuel)%nat -> (length s <= fuel')%nat ->
  TEXT_RE_findall_from fuel s = TEXT_RE_findall_from fuel' s.
Proof.
  revert fuel' s. induction fuel as [| fuel IH]; intros fuel' s H H'.
  - destruct s; [| cbn in H; lia]. now destruct fuel'.
  - destruct s as [| c s]; [now destruct fuel' |].
    destruct fuel' as [| fuel']; [cbn in H'; lia |].
    cbn [TEXT_RE_findall_from length] in *.
    destruct (TEXT_RE_match (c :: s)) as [[g rest] |] eqn:E.
    + apply TEXT_RE_match_length in E as (Hl & _). cbn [length] in Hl.
      f_equal. apply IH; lia.
    + apply IH; lia.
Qed.

(** [findall] on a string that begins with a match, and on one that does
    not. *)
Lemma TEXT_RE_findall_step (c : ascii) (s : bytes) :
  TEXT_RE_findall (c :: s)
    = match TEXT_RE_match (c :: s) with
      | Some (g, rest) => g :: TEXT_RE_findall rest
      | None => TEXT_RE_findall s
      end.
Proof.
  unfold TEXT_RE_findall. cbn [length TEXT_RE_findall_from].
  destruct (TEXT_RE_match (c :: s)) as [[g rest] |] eqn:E.
  - apply TEXT_RE_match_length in E as (Hl & _). cbn [length] in Hl.
    f_equal. apply TEXT_RE_findall_from_fuel; lia.
  - reflexivity.
Qed.

(** * Further properties of the code *)

(** ** Streams *)

(** X1. A read through any nesting of decrypting streams returns as many
    bytes as the underlying read: the position advances by exactly the
    number of bytes returned, and a read of [n >= 0] bytes returns at most
    [n] bytes. *)
Theorem read_advances_by_bytes_returned
    (s s' : stream) (n : Z) (d : bytes) :
  read s n = Ok (d, s') ->
  tell s' = tell s + Z.of_nat (length d)
  /\ (0 <= n -> Z.of_nat (length d) <= n).
Proof.
  intros H. split.
  - exact (read_tell _ _ _ _ H).
  - intros Hn. pose proof (read_length _ _ _ _ Hn H). lia.
Qed.

Lemma read_advances_by_bytes_returned_witness :
  tell (DecryptingStream (File (str "LECF") 3) 105)
    = tell (DecryptingStream (File (str "LECF") 0) 105) + 3.
Proof.
  exact (proj1 (read_advances_by_bytes_returned
                  (DecryptingStream (File (str "LECF") 0) 105)
                  (DecryptingStream (File (str "LECF") 3) 105)
                  3 (str "%,*") eq_refl)).
Defined.

Lemma lxor_not_byte (a k : Z) :
  0 <= a < 256 -> ~ (0 <= k < 256) -> ~ (0 <= Z.lxor a k < 256).
Proof.
  intros Ha Hk Hx. apply Hk.
  replace k with (Z.lxor a (Z.lxor a k))
    by (now rewrite <- Z.lxor_assoc, Z.lxor_nilpotent, Z.lxor_0_l).
  now apply lxor_byte.
Qed.

(** X2. A [DecryptingStream] whose key is a machine integer but not a byte
    cannot decrypt anything: every read that gets at least one byte from
    the underlying stream raises [ValueError] (from [chr]); a read that gets
    no byte still returns the empty string. *)
Theorem DecryptingStream_key_not_byte
    (s s' : stream) (k n : Z) (d : bytes) :
  - 2 ^ 31 <= k < 2 ^ 31 ->
  ~ (0 <= k < 256) ->
  read s n = Ok (d, s') ->
  read (DecryptingStream s k) n
    = match d with
      | [] => Ok ([], DecryptingStream s' k)
      | _ :: _ => Raise ValueError
      end.
Proof.
  intros _ Hk H. cbn [read]. rewrite H. cbn [bind].
  destruct (k =? 0) eqn:E; [apply Z.eqb_eq in E; lia |].
  destruct d as [| x d]; [reflexivity |].
  cbn [mapM]. unfold chr.
  pose proof (lxor_not_byte (ord x) k (ord_range x) Hk) as Hx.
  destruct ((0 <=? Z.lxor (ord x) k) && (Z.lxor (ord x) k <? 256)) eqn:G;
    [| reflexivity].
  apply andb_true_iff in G as [G1 G2].
  apply Z.leb_le in G1. apply Z.ltb_lt in G2. lia.
Qed.

Lemma DecryptingStream_key_not_byte_witness :
  read (DecryptingStream (File (str "LECF") 0) 256) 4 = Raise ValueError.
Proof.
  exact (DecryptingStream_key_not_byte (File (str "LECF") 0) (File (str "LECF") 4)
           256 4 (str "LECF") ltac:(lia) ltac:(lia) eq_refl).
Defined.

(** ** The decrypted view of a stream *)

Lemma file_read_map (f : ascii -> ascii) (d : bytes) (p n : Z) :
  fst (file_read (map f d) p n) = map f (fst (file_read d p n)).
Proof.
  unfold file_read. cbn [fst].
  destruct (n <? 0); now rewrite ?skipn_map, ?firstn_map.
Qed.

Lemma map_xor_byte_0 (l : bytes) : map (xor_byte 0) l = l.
Proof.
  induction l as [| x l IH]; [reflexivity |]. cbn [map]. now rewrite xor_byte_0, IH.
Qed.

Lemma view_tell (s : stream) (d : bytes) (p : Z) :
  view s = Some (d, p) -> tell s = p.
Proof.
  revert d p. induction s as [data pos | s IH k]; intros d p H; cbn in H |- *.
  - now injection H as _ <-.
  - destruct ((0 <=? k) && (k <? 256)); [| discriminate].
    destruct (view s) as [[d0 p0] |]; [| discriminate].
    injection H as _ <-. exact (IH _ _ eq_refl).
Qed.

(** A read of a stream with a view is the read of a file with the decrypted
    contents. *)
Lemma view_read (s : stream) (d : bytes) (p n : Z) :
  view s = Some (d, p) ->
  exists s' : stream,
    read s n = Ok (fst (file_read d p n), s')
    /\ view s' = Some (d, p + Z.of_nat (length (fst (file_read d p n)))).
Proof.
  revert d p. induction s as [data pos | s IH k]; intros d p H; cbn in H.
  - injection H as <- <-. eexists. split; [reflexivity |]. reflexivity.
  - destruct ((0 <=? k) && (k <? 256)) eqn:Hk; [| discriminate].
    destruct (view s) as [[d0 p0] |] eqn:Hv; [| discriminate].
    injection H as <- <-.
    destruct (IH _ _ eq_refl) as (s' & Hr & Hv').
    apply andb_true_iff in Hk as [K1 K2]. apply Z.leb_le in K1. apply Z.ltb_lt in K2.
    exists (DecryptingStream s' k). split.
    + cbn [read]. rewrite Hr. cbn [bind].
      rewrite file_read_map.
      assert (Hm : (if k =? 0 then Ok (fst (file_read d0 p0 n))
                    else mapM (fun x => chr (Z.lxor (ord x) k)) (fst (file_read d0 p0 n)))
                   = Ok (map (xor_byte k) (fst (file_read d0 p0 n)))).
      { destruct (k =? 0) eqn:E.
        - apply Z.eqb_eq in E. subst k. now rewrite map_xor_byte_0.
        - apply mapM_xor. lia. }
      rewrite Hm. reflexivity.
    + cbn [view].
      replace ((0 <=? k) && (k <? 256)) with true
        by (symmetry; apply andb_true_iff; split; [apply Z.leb_le | apply Z.ltb_lt]; lia).
      rewrite Hv'. rewrite file_read_map, length_map. reflexivity.
Qed.

(** A seek of a stream with a view is the seek of the file. *)
Lemma view_seek (s : stream) (d : bytes) (p offset whence : Z) :
  view s = Some (d, p) ->
  match file_seek d p offset whence with
  | Ok f => exists s' : stream,
              seek s offset whence = Ok s' /\ view s' = Some (d, tell f)
  | Raise e => seek s offset whence = Raise e
  | Diverge => False
  end.
Proof.
  revert d p. induction s as [data pos | s IH k]; intros d p H; cbn in H.
  - injection H as <- <-. cbn [seek]. unfold file_seek.
    destruct (if whence =? SEEK_SET then _ else _) as [t |]; [| reflexivity].
    destruct (t <? 0); [reflexivity |]. eexists. split; reflexivity.
  - destruct ((0 <=? k) && (k <? 256)) eqn:Hk; [| discriminate].
    destruct (view s) as [[d0 p0] |] eqn:Hv; [| discriminate].
    injection H as <- <-. specialize (IH _ _ eq_refl).
    assert (Hfs : file_seek (map (xor_byte k) d0) p0 offset whence
                  = match file_seek d0 p0 offset whence with
                    | Ok f => Ok (File (map (xor_byte k) d0) (tell f))
                    | Raise e => Raise e
                    | Diverge => Diverge
                    end).
    { unfold file_seek. rewrite length_map.
      destruct (if whence =? SEEK_SET then _ else _) as [t |]; [| reflexivity].
      now destruct (t <? 0). }
    rewrite Hfs. cbn [seek].
    destruct (file_seek d0 p0 offset whence) as [f | e |].
    + destruct IH as (s' & Hs & Hv'). exists (DecryptingStream s' k).
      rewrite Hs. split; [reflexivity |]. cbn [view tell]. now rewrite Hk, Hv'.
    + now rewrite IH.
    + exact IH.
Qed.

Lemma file_seek_target (d : bytes) (p offset whence : Z) :
  file_seek d p offset whence
    = if whence =? SEEK_SET then
        (if offset <? 0 then Raise IOError else Ok (File d offset))
      else if whence =? SEEK_CUR then
        (if p + offset <? 0 then Raise IOError else Ok (File d (p + offset)))
      else if whence =? SEEK_END then
        (if Z.of_nat (length d) + offset <? 0 then Raise IOError
         else Ok (File d (Z.of_nat (length d) + offset)))
      else Raise IOError.
Proof.
  unfold file_seek.
  destruct (whence =? SEEK_SET); [reflexivity |].
  destruct (whence =? SEEK_CUR); [reflexivity |].
  destruct (whence =? SEEK_END); reflexivity.
Qed.

(** ** [main]: the inputs it refuses *)

(** X3. [main] returns 1 without looking at the file when the version is
    not 5, and returns 1 for a file that cannot be opened and for a
    non-empty file whose bytes 1 to 3 do not decrypt to [ECF] (in
    particular every file of one to three bytes); on the empty file the
    indexing of the first byte raises [IndexError], which [main] does not
    catch. *)
Theorem main_refused_inputs
    (descumm : bytes -> option (Z * bytes * bytes)) (fuel : nat) :
  (forall (scumm_ver : Z) (file : option bytes),
      scumm_ver <> 5 -> main descumm fuel scumm_ver file = Ok (Some 1))
  /\ main descumm fuel 5 None = Ok (Some 1)
  /\ main descumm fuel 5 (Some []) = Raise IndexError
  /\ (forall (b0 : ascii) (rest : bytes),
        map (xor_byte (key_of b0)) (take 3 rest) <> str "ECF" ->
        main descumm fuel 5 (Some (b0 :: rest)) = Ok (Some 1))
  /\ (forall (b0 : ascii) (rest : bytes),
        (length rest < 3)%nat ->
        main descumm fuel 5 (Some (b0 :: rest)) = Ok (Some 1)).
Proof.
  assert (Hbad : forall (b0 : ascii) (rest : bytes),
             map (xor_byte (key_of b0)) (take 3 rest) <> str "ECF" ->
             main descumm fuel 5 (Some (b0 :: rest)) = Ok (Some 1)).
  { intros b0 rest Hne. unfold main. cbn [Z.eqb negb Pos.eqb].
    rewrite main_open_eq, (bool_decide_eq_false_2 _ Hne). reflexivity. }
  repeat split.
  - intros v file Hv. unfold main.
    destruct (v =? 5) eqn:E; [apply Z.eqb_eq in E; contradiction | reflexivity].
  - exact Hbad.
  - intros b0 rest Hl. apply Hbad. intros H.
    apply (f_equal length) in H. rewrite length_map, length_take in H.
    change (length (str "ECF")) with 3%nat in H. lia.
Qed.

Lemma main_refused_inputs_witness :
  main descumm_echo 8 5 (Some (str "RNAM")) = Ok (Some 1)
  /\ main descumm_echo 8 4 (Some example_archive) = Ok (Some 1).
Proof.
  destruct (main_refused_inputs descumm_echo 8) as (Hv & _ & _ & Hbad & _).
  split.
  - apply (Hbad "R"%char (str "NAM")). vm_compute. discriminate.
  - apply Hv. lia.
Defined.

(** ** The header of a block *)

Lemma file_read_length (d : bytes) (p n : Z) :
  0 <= p -> 0 <= n ->
  Z.of_nat (length (fst (file_read d p n)))
    = Z.max 0 (Z.min n (Z.of_nat (length d) - p)).
Proof.
  intros Hp Hn. unfold file_read. cbn [fst].
  destruct (n <? 0) eqn:E; [apply Z.ltb_lt in E; lia |].
  rewrite length_take, length_drop. lia.
Qed.

Lemma struct_unpack_BE_I_short (raw : bytes) :
  length raw <> 4%nat -> struct_unpack_BE_I raw = Raise struct_error.
Proof.
  destruct raw as [| b0 [| b1 [| b2 [| b3 [| ? ?]]]]]; cbn; try reflexivity.
  intros H. now contradiction H.
Qed.

(** An exception of the header is the exception of the block. *)
Lemma _processBlock_header_Raise
    (descumm : bytes -> option (Z * bytes * bytes)) (fuel : nat)
    (self : Processor) (e : exn) :
  read_header self = Raise e -> _processBlock descumm (S fuel) self = Raise e.
Proof.
  unfold read_header. cbn [_processBlock]. intros H.
  destruct (read (_infile self) 4) as [[bt f] | e1 |]; cbn [bind] in H |- *;
    [| congruence | discriminate].
  destruct (read (_infile (set_infile f self)) 4) as [[raw f'] | e2 |];
    cbn [bind] in H |- *; [| congruence | discriminate].
  destruct (struct_unpack_BE_I raw) as [n | e3 |]; cbn [bind] in H |- *;
    [discriminate | congruence | discriminate].
Qed.

(** The header of a stream with a view: the tag and the size are the first
    eight decrypted bytes at the position. *)
Lemma view_read_header (self : Processor) (d : bytes) (p : Z) :
  view (_infile self) = Some (d, p) -> 0 <= p ->
  let tag := fst (file_read d p 4) in
  let raw := fst (file_read d (p + Z.of_nat (length tag)) 4) in
  exists f : stream,
    view f = Some (d, p + Z.of_nat (length tag) + Z.of_nat (length raw))
    /\ read_header self
       = let* raw_size := struct_unpack_BE_I raw in
         Ok (tag, raw_size, set_infile f self).
Proof.
  intros Hv Hp tag raw. unfold read_header.
  destruct (view_read _ _ _ 4 Hv) as (f1 & Hr1 & Hv1). fold tag in Hr1, Hv1.
  rewrite Hr1. cbn [bind set_infile _infile].
  destruct (view_read _ _ _ 4 Hv1) as (f2 & Hr2 & Hv2). fold raw in Hr2, Hv2.
  rewrite Hr2. cbn [bind]. exists f2. split; [exact Hv2 |].
  destruct (struct_unpack_BE_I raw); reflexivity.
Qed.

Lemma truncated_header
    (descumm : bytes -> option (Z * bytes * bytes)) (fuel : nat)
    (self : Processor) (d : bytes) (p : Z) :
  view (_infile self) = Some (d, p) ->
  0 <= p ->
  Z.of_nat (length d) < p + 8 ->
  _processBlock descumm (S fuel) self = Raise struct_error.
Proof.
  intros Hv Hp Hlen. apply _processBlock_header_Raise.
  destruct (view_read_header self d p Hv Hp) as (f & _ & Hh).
  cbv zeta in Hh. rewrite Hh.
  rewrite struct_unpack_BE_I_short; [reflexivity |].
  pose proof (file_read_length d p 4 Hp ltac:(lia)) as L1.
  pose proof (file_read_length d (p + Z.of_nat (length (fst (file_read d p 4)))) 4
                ltac:(lia) ltac:(lia)) as L2.
  lia.
Qed.

(** X4. When fewer than eight bytes are left in the stream (in particular
    at its end), [_processBlock] raises the [struct.error] of the size
    field: the short reads of the header are not checked. *)
Theorem truncated_header_struct_error
    (descumm : bytes -> option (Z * bytes * bytes)) (fuel : nat)
    (self : Processor) (d : bytes) (p : Z) :
  view (_infile self) = Some (d, p) ->
  0 <= p ->
  Z.of_nat (length d) < p + 8 ->
  _processBlock descumm (S fuel) self = Raise struct_error.
Proof. exact (truncated_header descumm fuel self d p). Qed.

Lemma truncated_header_struct_error_witness :
  _processBlock descumm_echo 1
      (Processor_init (DecryptingStream (File (str "%,*/") 0) 105))
    = Raise struct_error.
Proof.
  apply (truncated_header_struct_error descumm_echo 0 _ (str "LECF") 0);
    [reflexivity | lia | cbn; lia].
Defined.

(** X5. A file that passes the magic check and has fewer than eight bytes
    makes [main] end with the [struct.error] of the first header, which it
    does not catch. *)
Theorem main_truncated_archive
    (descumm : bytes -> option (Z * bytes * bytes)) (fuel : nat)
    (b0 : ascii) (rest : bytes) :
  map (xor_byte (key_of b0)) (take 3 rest) = str "ECF" ->
  (length rest < 7)%nat ->
  main descumm (S fuel) 5 (Some (b0 :: rest)) = Raise struct_error.
Proof.
  intros Hm Hl. unfold main. cbn [Z.eqb negb Pos.eqb].
  rewrite main_open_eq, (bool_decide_eq_true_2 _ Hm). cbn [bind].
  unfold process.
  rewrite (truncated_header descumm fuel _
             (map (xor_byte (key_of b0)) (b0 :: rest)) 0).
  - reflexivity.
  - cbn [Processor_init _infile view].
    pose proof (key_of_range b0) as Hk.
    replace ((0 <=? key_of b0) && (key_of b0 <? 256)) with true
      by (symmetry; apply andb_true_iff; split; [apply Z.leb_le | apply Z.ltb_lt]; lia).
    reflexivity.
  - lia.
  - rewrite length_map. cbn [length]. lia.
Qed.

Lemma main_truncated_archive_witness :
  main descumm_echo 1 5 (Some (str "LECF")) = Raise struct_error.
Proof.
  apply (main_truncated_archive descumm_echo 0 "L"%char (str "ECF"));
    [reflexivity | cbn; lia].
Defined.

(** ** [unescape]: plain text, length, round trip *)

Lemma unescape_nil : unescape [] = Ok [].
Proof. reflexivity. Qed.

(** X6. A payload without backslash is returned unchanged. *)
Theorem unescape_without_backslash (s : bytes) :
  backslash ∉ s -> unescape s = Ok s.
Proof.
  induction s as [| c s IH]; intros Hn; [reflexivity |].
  apply not_elem_of_cons in Hn as [Hc Hs].
  rewrite unescape_plain by congruence. now rewrite (IH Hs).
Qed.

Lemma unescape_without_backslash_witness :
  unescape (str "Hello, world") = Ok (str "Hello, world").
Proof.
  apply unescape_without_backslash. vm_compute. intros H.
  repeat (apply elem_of_cons in H as [H | H]; [discriminate |]).
  now apply elem_of_nil in H.
Defined.

Lemma unescape_loop_length (string : bytes) (fuel pos : nat) (out r : bytes) :
  unescape_loop fuel string pos out = Ok r ->
  (length r <= length out + (length string - pos))%nat.
Proof.
  revert pos out. induction fuel as [| fuel IH]; intros pos out H.
  - cbn [unescape_loop] in H.
    destruct (decide (pos < length string)%nat); [discriminate |].
    injection H as <-. lia.
  - rewrite unescape_loop_S in H.
    destruct (decide (pos < length string)%nat); [| injection H as <-; lia].
    destruct (string !! pos) as [ch |]; [| discriminate].
    destruct (negb (bool_decide (ch = backslash))).
    { apply IH in H. rewrite length_app in H. cbn [length] in H. lia. }
    destruct (string !! (pos + 1)%nat) as [ch' |] eqn:E; [| discriminate].
    apply lookup_lt_Some in E.
    destruct (bool_decide (ch' = "x"%char)).
    + destruct (int_base16 _) as [v | |]; cbn [bind] in H; try discriminate.
      destruct (chr v); cbn [bind] in H; try discriminate.
      apply IH in H. rewrite length_app in H. cbn [length] in H. lia.
    + destruct (bool_decide (ch' = backslash)); [| discriminate].
      apply IH in H. rewrite length_app in H. cbn [length] in H. lia.
Qed.

(** X7. The text [unescape] returns is never longer than the payload. *)
Theorem unescape_not_longer (s r : bytes) :
  unescape s = Ok r -> (length r <= length s)%nat.
Proof.
  unfold unescape. intros H. apply unescape_loop_length in H.
  cbn [length] in H. lia.
Qed.

Lemma unescape_not_longer_witness :
  (length (str "AB\") <= length (str "\x41\x42\\"))%nat.
Proof.
  exact (unescape_not_longer (str "\x41\x42\\") (str "AB\") eq_refl).
Defined.

Lemma hex2_value (c : ascii) :
  exists v1 v2 : Z,
    hex_value (hex_char (ord c / 16)) = Some v1
    /\ hex_value (hex_char (ord c mod 16)) = Some v2
    /\ ascii_of_N (Z.to_N (16 * v1 + v2)) = c.
Proof.
  destruct c as [[] [] [] [] [] [] [] []]; vm_compute; eauto.
Qed.

Lemma unescape_escape1 (hexed : ascii -> bool) (c : ascii) (s : bytes) :
  unescape (escape1 hexed c ++ s) = let* r := unescape s in Ok (c :: r).
Proof.
  unfold escape1. destruct (hexed c).
  - destruct (hex2_value c) as (v1 & v2 & H1 & H2 & Hc).
    unfold hex2. cbn [app].
    rewrite (unescape_hex _ _ _ _ s H1 H2). now rewrite Hc.
  - destruct (bool_decide (c = backslash)) eqn:E.
    + apply bool_decide_eq_true in E. subst c. cbn [app].
      apply unescape_backslash.
    + apply bool_decide_eq_false in E. cbn [app]. now apply unescape_plain.
Qed.

(** X8. [unescape] undoes the escaping in which a backslash is doubled or
    written as a hexadecimal escape and any other byte is kept or written
    as a hexadecimal escape [\xHH], whatever the choice for each byte:
    every byte string comes back unchanged. *)
Theorem unescape_escape (hexed : ascii -> bool) (s : bytes) :
  unescape (escape hexed s) = Ok s.
Proof.
  induction s as [| c s IH]; [reflexivity |].
  cbn [escape]. now rewrite unescape_escape1, IH.
Qed.

(** ** The scanner and the report of a script *)

Lemma TEXT_RE_findall_from_groups (fuel : nat) (s g : bytes) :
  g ∈ TEXT_RE_findall_from fuel s -> g <> [] /\ dquote ∉ g.
Proof.
  revert s. induction fuel as [| fuel IH]; intros s Hin.
  - destruct s; cbn in Hin; now apply elem_of_nil in Hin.
  - destruct s as [| c s]; [cbn in Hin; now apply elem_of_nil in Hin |].
    cbn [TEXT_RE_findall_from] in Hin.
    destruct (TEXT_RE_match (c :: s)) as [[g0 rest] |] eqn:E.
    + apply elem_of_cons in Hin as [-> | Hin].
      * apply TEXT_RE_match_length in E. tauto.
      * exact (IH _ Hin).
    + exact (IH _ Hin).
Qed.

(** X9. Every string [TEXT_RE.findall] extracts is non-empty and holds no
    double quote. *)
Theorem TEXT_RE_findall_groups (s g : bytes) :
  g ∈ TEXT_RE_findall s -> g <> [] /\ dquote ∉ g.
Proof. apply TEXT_RE_findall_from_groups. Qed.

Lemma TEXT_RE_findall_groups_witness :
  str "Hello" <> [] /\ dquote ∉ str "Hello".
Proof.
  apply (TEXT_RE_findall_groups
           (str "print(Text(" ++ [dquote] ++ str "Hello" ++ [dquote] ++ str "))")).
  vm_compute. apply list_elem_of_here.
Defined.

Lemma span_not_quote_app (g r : bytes) :
  dquote ∉ g -> span_not_quote (g ++ dquote :: r) = (g, dquote :: r).
Proof.
  induction g as [| c g IH]; intros Hn.
  - cbn. now rewrite bool_decide_eq_true_2.
  - apply not_elem_of_cons in Hn as [Hc Hg]. cbn [app span_not_quote].
    rewrite bool_decide_eq_false_2 by congruence. now rewrite (IH Hg).
Qed.

Lemma strip_prefix_None_no_quote (s : bytes) :
  dquote ∉ s -> strip_prefix (str "Text(" ++ [dquote]) s = None.
Proof.
  intros Hn.
  destruct (strip_prefix (str "Text(" ++ [dquote]) s) as [r |] eqn:E; [| reflexivity].
  exfalso. apply Hn. clear Hn.
  change (str "Text(" ++ [dquote])
    with ["T"%char; "e"%char; "x"%char; "t"%char; "("%char; dquote] in E.
  destruct s as [| c0 [| c1 [| c2 [| c3 [| c4 [| c5 s]]]]]]; cbn in E;
    try discriminate; repeat (case_bool_decide; try discriminate).
  subst. do 5 apply list_elem_of_further. apply list_elem_of_here.
Qed.

Lemma strip_prefix_app (p s : bytes) : strip_prefix p (p ++ s) = Some s.
Proof.
  induction p as [| x p IH]; [reflexivity |].
  cbn [app strip_prefix]. now rewrite bool_decide_eq_true_2.
Qed.

(** X10. When the text starts with an operand, that is [Text(], a quote, a
    non-empty string [g] without quote, a quote and a closing parenthesis,
    [findall] extracts [g] and goes on with the text after the parenthesis;
    and a text that holds no double quote has no operand at all. *)
Theorem TEXT_RE_findall_operand :
  (forall g rest : bytes,
      g <> [] -> dquote ∉ g ->
      TEXT_RE_findall (str "Text(" ++ [dquote] ++ g ++ [dquote] ++ str ")" ++ rest)
        = g :: TEXT_RE_findall rest)
  /\ (forall s : bytes, dquote ∉ s -> TEXT_RE_findall s = []).
Proof.
  split.
  - intros g rest Hg Hq.
    assert (Hm : TEXT_RE_match ((str "Text(" ++ [dquote])
                                ++ g ++ dquote :: ")"%char :: rest)
                 = Some (g, rest)).
    { unfold TEXT_RE_match. rewrite strip_prefix_app.
      rewrite (span_not_quote_app _ _ Hq).
      destruct g as [| c g]; [congruence |].
      now rewrite bool_decide_eq_true_2. }
    replace (str "Text(" ++ [dquote] ++ g ++ [dquote] ++ str ")" ++ rest)
      with ((str "Text(" ++ [dquote]) ++ g ++ dquote :: ")"%char :: rest)
      by (now rewrite <- !app_assoc).
    change ((str "Text(" ++ [dquote]) ++ g ++ dquote :: ")"%char :: rest)
      with ("T"%char :: ((str "ext(" ++ [dquote]) ++ g ++ dquote :: ")"%char :: rest))
      in Hm |- *.
    rewrite TEXT_RE_findall_step. now rewrite Hm.
  - intros s. induction s as [| c s IH]; intros Hn; [reflexivity |].
    rewrite TEXT_RE_findall_step. unfold TEXT_RE_match.
    rewrite (strip_prefix_None_no_quote _ Hn).
    apply IH. apply not_elem_of_cons in Hn. tauto.
Qed.

Lemma TEXT_RE_findall_operand_witness :
  TEXT_RE_findall (str "Text(" ++ [dquote] ++ str "Hi" ++ [dquote] ++ str ")" ++ str ";")
    = [str "Hi"].
Proof.
  destruct TEXT_RE_findall_operand as (Hop & Hno).
  rewrite Hop; [| discriminate |].
  - rewrite Hno; [reflexivity |]. vm_compute. intros H.
    repeat (apply elem_of_cons in H as [H | H]; [discriminate |]).
    now apply elem_of_nil in H.
  - vm_compute. intros H.
    repeat (apply elem_of_cons in H as [H | H]; [discriminate |]).
    now apply elem_of_nil in H.
Defined.

Lemma _handleScript_loop_mapM (matches : list bytes) (out_stream : bytes) :
  _handleScript_loop matches out_stream
    = let* texts := mapM unescape matches in
      Ok (out_stream ++ concat (map fragment texts)).
Proof.
  revert out_stream. induction matches as [| m matches IH]; intros out_stream.
  - cbn. now rewrite app_nil_r.
  - cbn [_handleScript_loop mapM].
    destruct (unescape m) as [u | e |]; cbn [bind]; try reflexivity.
    rewrite IH.
    destruct (mapM unescape matches) as [us | e |]; cbn [bind]; try reflexivity.
    cbn [map concat]. unfold fragment at 2.
    f_equal. repeat rewrite <- app_assoc. reflexivity.
Qed.

(** X11. The report of a script is the concatenation, in the order of the
    listing, of one fragment per extracted string: the line [[String]], the
    unescaped string and an empty line; when a string cannot be unescaped,
    the exception of the first such string is the outcome and there is no
    report. *)
Theorem handleScript_report
    (descumm : bytes -> option (Z * bytes * bytes)) (size : Z)
    (self self1 : Processor) (disasm : bytes) :
  _dissassembleScript descumm size self = Ok (disasm, self1) ->
  _handleScript descumm size self
    = let* texts := mapM unescape (TEXT_RE_findall disasm) in
      Ok (concat (map fragment texts), self1).
Proof.
  intros H. unfold _handleScript. rewrite H. cbn [bind].
  rewrite _handleScript_loop_mapM.
  destruct (mapM unescape (TEXT_RE_findall disasm)); reflexivity.
Qed.

Lemma handleScript_report_witness :
  _handleScript descumm_hello 9 (Processor_init (File (block "VERB" (str "s")) 0))
    = Ok (fragment (str "Hello") ++ fragment (str "AB"),
          Processor_init (File (block "VERB" (str "s")) 9)).
Proof.
  rewrite (handleScript_report descumm_hello 9
             (Processor_init (File (block "VERB" (str "s")) 0))
             (Processor_init (File (block "VERB" (str "s")) 9))
             (str "(D8) printEgo([Text(" ++ [dquote] ++ str "Hello" ++ [dquote]
              ++ str ")]);" ++ [newline]
              ++ str "(D8) printEgo([Text(" ++ [dquote] ++ str "\x41\x42" ++ [dquote]
              ++ str ")]);" ++ [newline]) eq_refl).
  vm_compute. reflexivity.
Defined.

(** ** The registry during the walk *)

Lemma keeps_refl (self : Processor) : keeps self self.
Proof.
  split; [tauto |]. repeat split; [lia | exists []; now rewrite app_nil_r | tauto].
Qed.

Lemma keeps_trans (a b c : Processor) : keeps a b -> keeps b c -> keeps a c.
Proof.
  intros [V1 (L1 & [t1 S1] & D1)] [V2 (L2 & [t2 S2] & D2)].
  split; [tauto |]. repeat split; [lia | | auto].
  exists (t1 ++ t2). now rewrite S2, S1, app_assoc.
Qed.

Lemma keeps_same (self self' : Processor) :
  _obj_dict self' = _obj_dict self -> _current_obj self' = _current_obj self ->
  heap self' = heap self -> stdout self' = stdout self ->
  keeps self self'.
Proof.
  intros Hd Hc Hh Hs. unfold keeps, refs_valid, extends.
  rewrite Hd, Hc, Hh, Hs.
  repeat split; try tauto; [lia | exists []; now rewrite app_nil_r].
Qed.

Lemma keeps_print (line : bytes) (self : Processor) : keeps self (print line self).
Proof.
  unfold keeps, refs_valid, extends. cbn [print _obj_dict _current_obj heap stdout].
  repeat split; try tauto; [lia | eauto].
Qed.

Lemma keeps_new_current_obj (hdr_offset : Z) (self : Processor) :
  keeps self (new_current_obj hdr_offset self).
Proof.
  unfold keeps, refs_valid, extends.
  cbn [new_current_obj _obj_dict _current_obj heap stdout].
  rewrite length_app. cbn [length]. repeat split.
  - intros k l Hl. destruct (decide (hdr_offset = k)) as [-> | Hne].
    + rewrite lookup_insert_eq in Hl. injection Hl as <-. lia.
    + rewrite lookup_insert_ne in Hl by exact Hne.
      destruct H as [Hd _]. specialize (Hd _ _ Hl). lia.
  - intros l Hl. injection Hl as <-. lia.
  - lia.
  - exists []. now rewrite app_nil_r.
  - intros k Hk. destruct (decide (hdr_offset = k)) as [-> | Hne].
    + rewrite lookup_insert_eq. eauto.
    + now rewrite lookup_insert_ne.
Qed.

Lemma keeps_set_current_scripts (result : bytes) (self self' : Processor) :
  set_current_scripts result self = Ok self' -> keeps self self'.
Proof.
  unfold set_current_scripts. destruct (_current_obj self) as [l |] eqn:E; [| discriminate].
  intros H. injection H as <-. unfold keeps, refs_valid, extends.
  cbn [set_heap _obj_dict _current_obj heap stdout]. rewrite length_insert.
  repeat split; try tauto; [lia | exists []; now rewrite app_nil_r].
Qed.

Lemma keeps_set_current_name (result : bytes) (self self' : Processor) :
  set_current_name result self = Ok self' -> keeps self self'.
Proof.
  unfold set_current_name. destruct (_current_obj self) as [l |] eqn:E; [| discriminate].
  intros H. injection H as <-. unfold keeps, refs_valid, extends.
  cbn [set_heap _obj_dict _current_obj heap stdout]. rewrite length_insert.
  repeat split; try tauto; [lia | exists []; now rewrite app_nil_r].
Qed.

Lemma _processSubBlocks_loop_keeps (pb : Processor -> outcome Processor) :
  (forall a b : Processor, pb a = Ok b -> keeps a b) ->
  forall (fuel : nat) (end_ : Z) (self self' : Processor),
    _processSubBlocks_loop pb fuel end_ self = Ok self' -> keeps self self'.
Proof.
  intros Hpb fuel end_. induction fuel as [| fuel IH]; intros self self' H;
    cbn [_processSubBlocks_loop] in H.
  - destruct (tell (_infile self) <? end_); [discriminate |].
    injection H as <-. apply keeps_refl.
  - destruct (tell (_infile self) <? end_); [| injection H as <-; apply keeps_refl].
    destruct (pb self) as [self1 | |] eqn:E; try discriminate. cbn [bind] in H.
    exact (keeps_trans _ _ _ (Hpb _ _ E) (IH _ _ H)).
Qed.

Lemma _processSubBlocks_keeps (pb : Processor -> outcome Processor) :
  (forall a b : Processor, pb a = Ok b -> keeps a b) ->
  forall (fuel : nat) (size : Z) (self self' : Processor),
    _processSubBlocks pb fuel size self = Ok self' -> keeps self self'.
Proof.
  intros Hpb fuel size self self'. unfold _processSubBlocks.
  destruct (_processSubBlocks_loop pb fuel _ self) as [s1 | |] eqn:E; try discriminate.
  cbn [bind]. destruct (_ >? _); [discriminate |].
  intros H. injection H as <-. exact (_processSubBlocks_loop_keeps pb Hpb _ _ _ _ E).
Qed.

Section Registry.

Variable descumm : bytes -> option (Z * bytes * bytes).

Lemma _handleScript_fields (size : Z) (self self' : Processor) (result : bytes) :
  _handleScript descumm size self = Ok (result, self') ->
  exists f : stream, self' = set_infile f self.
Proof.
  unfold _handleScript, _dissassembleScript.
  destruct (read (_infile self) size) as [[data f] | |]; try discriminate. cbn [bind].
  destruct (descumm data) as [[[rc out] err] |]; [| discriminate].
  destruct (negb (rc =? 0)); [discriminate |]. cbn [bind].
  destruct (_handleScript_loop _ []); try discriminate. cbn [bind].
  intros H. injection H as _ <-. eauto.
Qed.

Lemma _readASCIIZ_fields (fuel : nat) (self self' : Processor) (s : bytes) :
  _readASCIIZ fuel self = Ok (s, self') ->
  exists f : stream, self' = set_infile f self.
Proof.
  unfold _readASCIIZ.
  destruct (_readASCIIZ_loop fuel (_infile self) []) as [[s0 f] | |]; try discriminate.
  cbn [bind]. intros H. injection H as _ <-. eauto.
Qed.

Lemma keeps_set_infile (f : stream) (self : Processor) : keeps self (set_infile f self).
Proof. now apply keeps_same. Qed.

Lemma _processBlock_keeps (fuel : nat) :
  forall self self' : Processor,
    _processBlock descumm fuel self = Ok self' -> keeps self self'.
Proof.
  induction fuel as [| fuel IH]; intros self self' H; [discriminate |].
  cbn [_processBlock] in H.
  destruct (read (_infile self) 4) as [[block_type f1] | |]; try discriminate.
  cbn [bind] in H.
  destruct (read (_infile (set_infile f1 self)) 4) as [[raw f2] | |]; try discriminate.
  cbn [bind] in H.
  destruct (struct_unpack_BE_I raw) as [raw_size | |]; try discriminate.
  cbn [bind] in H.
  assert (K1 : keeps self (set_infile f2 (set_infile f1 self))) by now apply keeps_same.
  remember (set_infile f2 (set_infile f1 self)) as self1 eqn:E1. clear E1.
  apply (keeps_trans _ _ _ K1). clear K1.
  destruct (in_tuple block_type [str "LECF"; str "LFLF"; str "ROOM"]).
  { exact (_processSubBlocks_keeps _ IH _ _ _ _ H). }
  destruct (in_tuple block_type _).
  { destruct (seek (_infile self1) (tell (_infile self)) SEEK_SET) as [f | |];
      try discriminate. cbn [bind] in H.
    destruct (_handleScript descumm raw_size (set_infile f self1))
      as [[result self2] | |] eqn:E; try discriminate. cbn [bind] in H.
    apply _handleScript_fields in E as [f' ->].
    apply (keeps_trans _ (set_infile f self1)); [apply keeps_set_infile |].
    apply (keeps_trans _ (set_infile f' (set_infile f self1))); [apply keeps_set_infile |].
    destruct (bool_decide (block_type = str "VERB")).
    - exact (keeps_set_current_scripts _ _ _ H).
    - injection H as <-.
      eapply keeps_trans; [apply keeps_print | apply keeps_print]. }
  destruct (bool_decide (block_type = str "OBCD")).
  { apply (keeps_trans _ (new_current_obj (tell (_infile self)) self1));
      [apply keeps_new_current_obj |].
    exact (_processSubBlocks_keeps _ IH _ _ _ _ H). }
  destruct (bool_decide (block_type = str "OBNA")).
  { destruct (_readASCIIZ fuel self1) as [[s self2] | |] eqn:E; try discriminate.
    cbn [bind] in H. apply _readASCIIZ_fields in E as [f' ->].
    apply (keeps_trans _ (set_infile f' self1)); [apply keeps_set_infile |].
    exact (keeps_set_current_name _ _ _ H). }
  destruct (isValidBlockType block_type) as [valid | |]; try discriminate.
  cbn [bind] in H. destruct (negb valid); [discriminate |].
  destruct (seek (_infile self1) (raw_size - hdr_size) SEEK_CUR) as [f | |];
    try discriminate. cbn [bind] in H. injection H as <-. apply keeps_set_infile.
Qed.

End Registry.

(** X12. The walk keeps the registry consistent: when the references of
    the registry and of the current-object slot point into the heap before
    a block is processed, they do so afterwards; no object is removed from
    the heap, every offset that was registered stays registered, and the
    output is only appended to. *)
Theorem walker_keeps_registry
    (descumm : bytes -> option (Z * bytes * bytes)) (fuel : nat)
    (self self' : Processor) :
  refs_valid self ->
  _processBlock descumm fuel self = Ok self' ->
  refs_valid self' /\ extends self self'.
Proof.
  intros Hv H. destruct (_processBlock_keeps descumm fuel _ _ H) as [Hk He].
  split; [exact (Hk Hv) | exact He].
Qed.

Lemma walker_keeps_registry_witness :
  exists self' : Processor,
    _processBlock descumm_echo 8 (Processor_init (File example_archive 0)) = Ok self'
    /\ refs_valid self'.
Proof.
  destruct (_processBlock descumm_echo 8 (Processor_init (File example_archive 0)))
    as [self' | |] eqn:E; try (vm_compute in E; discriminate E).
  exists self'. split; [reflexivity |].
  refine (proj1 (walker_keeps_registry descumm_echo 8 _ self' _ E)).
  split.
  - intros k l H. cbn in H. now rewrite lookup_empty in H.
  - intros l H. discriminate H.
Defined.

(** ** Blocks, one kind at a time *)

(** A relative seek of any stream: refused when it would leave the stream
    before its start, otherwise the position moves by the offset. *)
Lemma seek_CUR (s : stream) (offset : Z) :
  if tell s + offset <? 0 then seek s offset SEEK_CUR = Raise IOError
  else exists s' : stream,
         seek s offset SEEK_CUR = Ok s' /\ tell s' = tell s + offset
         /\ view s' = match view s with
                      | Some (d, _) => Some (d, tell s + offset)
                      | None => None
                      end.
Proof.
  induction s as [data pos | s IH k]; cbn [tell seek view].
  - rewrite file_seek_target. cbn.
    destruct (pos + offset <? 0); [reflexivity |]. eexists. repeat split.
  - destruct (tell s + offset <? 0).
    + now rewrite IH.
    + destruct IH as (s' & Hs & Ht & Hv). exists (DecryptingStream s' k).
      rewrite Hs. cbn [bind tell view]. repeat split; [exact Ht |].
      rewrite Hv. destruct ((0 <=? k) && (k <? 256)); [| reflexivity].
      now destruct (view s) as [[d p] |].
Qed.

Lemma isValidBlockType_length (block_type : bytes) (v : bool) :
  isValidBlockType block_type = Ok v -> length block_type = 4%nat.
Proof.
  unfold isValidBlockType.
  destruct (length block_type =? 4)%nat eqn:E; [| discriminate].
  intros _. now apply Nat.eqb_eq in E.
Qed.

(** X13. An unrecognized block whose tag passes [isValidBlockType] is
    skipped: the stream is left at [header_offset + declared_size], and the
    registry, the current object, the objects and the output are
    untouched. *)
Theorem unrecognized_block_skipped
    (descumm : bytes -> option (Z * bytes * bytes)) (fuel : nat)
    (self self1 : Processor) (block_type : bytes) (declared_size : Z) :
  read_header self = Ok (block_type, declared_size, self1) ->
  block_type ∉ [str "LECF"; str "LFLF"; str "ROOM"; str "SCRP"; str "LSCR";
                str "ENCD"; str "EXCD"; str "VERB"; str "OBCD"; str "OBNA"] ->
  isValidBlockType block_type = Ok true ->
  0 <= tell (_infile self) ->
  exists f : stream,
    _processBlock descumm (S fuel) self = Ok (set_infile f self1)
    /\ tell f = tell (_infile self) + declared_size
    /\ _obj_dict self1 = _obj_dict self
    /\ _current_obj self1 = _current_obj self
    /\ heap self1 = heap self
    /\ stdout self1 = stdout self.
Proof.
  intros H Hnin Hvalid Hpos.
  rewrite (_processBlock_unrecognized descumm fuel _ _ _ _ H Hnin), Hvalid.
  cbn [bind negb].
  pose proof (read_header_spec _ _ _ _ H) as (Ht & Hn & _ & Hd & Hc & Hh & Hs).
  rewrite (isValidBlockType_length _ _ Hvalid) in Ht.
  pose proof (seek_CUR (_infile self1) (declared_size - 8)) as Hseek.
  destruct (tell (_infile self1) + (declared_size - 8) <? 0) eqn:E;
    [apply Z.ltb_lt in E; lia |].
  destruct Hseek as (f & Hf & Htf & _). exists f.
  rewrite Hf. cbn [bind]. repeat split; try assumption. lia.
Qed.

Lemma unrecognized_block_skipped_witness :
  exists f : stream,
    _processBlock descumm_echo 1 (Processor_init (File (block "PADD" (str "abc")) 0))
      = Ok (set_infile f (Processor_init (File (block "PADD" (str "abc")) 8)))
    /\ tell f = 0 + 11.
Proof.
  destruct (unrecognized_block_skipped descumm_echo 0
              (Processor_init (File (block "PADD" (str "abc")) 0))
              (Processor_init (File (block "PADD" (str "abc")) 8))
              (str "PADD") 11 eq_refl)
    as (f & Hf & Ht & _).
  - vm_compute. intros H.
    repeat (apply elem_of_cons in H as [H | H]; [discriminate |]).
    now apply elem_of_nil in H.
  - reflexivity.
  - cbn. lia.
  - exists f. split; assumption.
Defined.

(** The name reader on a stream with a view. *)
Lemma _readASCIIZ_loop_view (d pre rest : bytes) :
  forall (fuel : nat) (s : stream) (p : Z) (out : bytes),
    view s = Some (d, p) -> 0 <= p ->
    drop (Z.to_nat p) d = pre ++ NUL :: rest -> NUL ∉ pre ->
    (length pre < fuel)%nat ->
    exists s' : stream,
      _readASCIIZ_loop fuel s out = Ok (out ++ pre, s')
      /\ view s' = Some (d, p + Z.of_nat (length pre) + 1).
Proof.
  intros fuel. revert pre.
  induction fuel as [| fuel IH]; intros pre s p out Hv Hp Hd Hn Hf; [lia |].
  cbn [_readASCIIZ_loop].
  destruct (view_read s d p 1 Hv) as (s1 & Hr & Hv1). rewrite Hr. cbn [bind].
  rewrite file_read_1 in * by exact Hp.
  assert (Hl : d !! Z.to_nat p = (pre ++ NUL :: rest) !! 0%nat)
    by (now rewrite <- Hd, lookup_drop, Nat.add_0_r).
  destruct pre as [| c pre].
  - cbn in Hl. rewrite Hl in *. cbn [fst length] in *.
    rewrite bool_decide_eq_true_2 by reflexivity.
    exists s1. rewrite app_nil_r. split; [reflexivity |].
    rewrite Hv1. do 2 f_equal. lia.
  - cbn in Hl. rewrite Hl in *. cbn [fst length] in *.
    rewrite bool_decide_eq_false_2
      by (intros Heq; apply Hn; injection Heq as ->; apply list_elem_of_here).
    destruct (IH pre s1 (p + 1) (out ++ [c])) as (s' & Hs' & Hv').
    + rewrite Hv1. do 2 f_equal.
    + lia.
    + replace (Z.to_nat (p + 1)) with (S (Z.to_nat p)) by lia.
      change (S (Z.to_nat p)) with (1 + Z.to_nat p)%nat.
      rewrite Nat.add_comm, <- drop_drop, Hd. reflexivity.
    + intros Hin. apply Hn. now apply list_elem_of_further.
    + lia.
    + exists s'. rewrite Hs', <- app_assoc. split; [reflexivity |].
      rewrite Hv'. do 2 f_equal. lia.
Qed.

(** X14. A name block met while an object is in context: the bytes up to
    the first zero byte after the header become the name of that object,
    its scripts and all other objects are left as they were, nothing is
    printed, and the stream is left just after the zero byte, whatever size
    the block declares. *)
Theorem name_block_sets_name
    (descumm : bytes -> option (Z * bytes * bytes)) (fuel : nat)
    (self self1 : Processor) (declared_size : Z)
    (d nm rest : bytes) (p : Z) (l : nat) :
  read_header self = Ok (str "OBNA", declared_size, self1) ->
  view (_infile self1) = Some (d, p) -> 0 <= p ->
  drop (Z.to_nat p) d = nm ++ NUL :: rest -> NUL ∉ nm ->
  _current_obj self = Some l ->
  (length nm < fuel)%nat ->
  exists self' : Processor,
    _processBlock descumm (S fuel) self = Ok self'
    /\ view (_infile self') = Some (d, p + Z.of_nat (length nm) + 1)
    /\ heap self'
       = <[l := {| name := Some nm; scripts := scripts (deref (heap self) l) |}]>
           (heap self)
    /\ _obj_dict self' = _obj_dict self
    /\ _current_obj self' = Some l
    /\ stdout self' = stdout self.
Proof.
  intros H Hv Hp Hd Hn Hc Hf.
  rewrite (_processBlock_OBNA descumm fuel _ _ _ H).
  pose proof (read_header_spec _ _ _ _ H) as (_ & _ & _ & Hd1 & Hc1 & Hh1 & Hs1).
  unfold _readASCIIZ.
  destruct (_readASCIIZ_loop_view d nm rest fuel _ p [] Hv Hp Hd Hn Hf)
    as (f & Hr & Hvf).
  rewrite Hr. cbn [bind app]. unfold set_current_name.
  cbn [set_infile _current_obj heap]. rewrite Hc1, Hc.
  eexists. split; [reflexivity |].
  cbn [set_heap set_infile _infile heap _obj_dict _current_obj stdout].
  rewrite Hh1. repeat split; try assumption. now rewrite Hc1.
Qed.

Lemma name_block_sets_name_witness :
  exists self' : Processor,
    _processBlock descumm_echo 5
        {| _infile := File (block "OBNA" (str "Foo" ++ [NUL])) 0;
           _obj_dict := {[ 0 := 0%nat ]}; _current_obj := Some 0%nat;
           heap := [ {| name := None; scripts := Some (str "s") |} ];
           stdout := [] |}
      = Ok self'
    /\ heap self' = [ {| name := Some (str "Foo"); scripts := Some (str "s") |} ].
Proof.
  destruct (name_block_sets_name descumm_echo 4
              {| _infile := File (block "OBNA" (str "Foo" ++ [NUL])) 0;
                 _obj_dict := {[ 0 := 0%nat ]}; _current_obj := Some 0%nat;
                 heap := [ {| name := None; scripts := Some (str "s") |} ];
                 stdout := [] |}
              {| _infile := File (block "OBNA" (str "Foo" ++ [NUL])) 8;
                 _obj_dict := {[ 0 := 0%nat ]}; _current_obj := Some 0%nat;
                 heap := [ {| name := None; scripts := Some (str "s") |} ];
                 stdout := [] |}
              12 (block "OBNA" (str "Foo" ++ [NUL])) (str "Foo") [] 8 0%nat
              eq_refl eq_refl ltac:(lia) eq_refl)
    as (self' & Hb & _ & Hh & _).
  - vm_compute. intros H.
    repeat (apply elem_of_cons in H as [H | H]; [discriminate |]).
    now apply elem_of_nil in H.
  - reflexivity.
  - cbn. lia.
  - exists self'. split; [exact Hb | exact Hh].
Defined.

(** ** Script blocks *)

Lemma _processBlock_script_tag
    (descumm : bytes -> option (Z * bytes * bytes)) (fuel : nat)
    (self self1 : Processor) (block_type : bytes) (raw_size : Z) :
  read_header self = Ok (block_type, raw_size, self1) ->
  block_type ∈ [str "SCRP"; str "LSCR"; str "ENCD"; str "EXCD"; str "VERB"] ->
  _processBlock descumm (S fuel) self
    = let* f := seek (_infile self1) (tell (_infile self)) SEEK_SET in
      let* (result, self2) := _handleScript descumm raw_size (set_infile f self1) in
      if bool_decide (block_type = str "VERB") then
        set_current_scripts result self2
      else
        Ok (print result
              (print (str "***** " ++ block_type ++ str " SCRIPT AT: "
                      ++ fmt_08X (tell (_infile self)) ++ str " *****") self2)).
Proof.
  intros H Hin.
  assert (Hc : in_tuple block_type [str "LECF"; str "LFLF"; str "ROOM"] = false
               /\ in_tuple block_type
                    [str "SCRP"; str "LSCR"; str "ENCD"; str "EXCD"; str "VERB"] = true).
  { split; [| exact (bool_decide_eq_true_2 _ Hin)].
    repeat (apply elem_of_cons in Hin as [-> | Hin]; [reflexivity |]).
    now apply elem_of_nil in Hin. }
  destruct Hc as [Hc1 Hc2].
  unfold read_header in H. cbn [_processBlock].
  destruct (read (_infile self) 4) as [[bt f1] | |]; try discriminate H.
  cbn [bind] in H |- *.
  destruct (read (_infile (set_infile f1 self)) 4) as [[raw f2] | |]; try discriminate H.
  cbn [bind] in H |- *.
  destruct (struct_unpack_BE_I raw) as [n | |]; try discriminate H.
  cbn [bind] in H |- *. injection H as -> -> <-.
  now rewrite Hc1, Hc2.
Qed.

Lemma view_seek_SET (s : stream) (d : bytes) (p offset : Z) :
  view s = Some (d, p) -> 0 <= offset ->
  exists s' : stream, seek s offset SEEK_SET = Ok s' /\ view s' = Some (d, offset).
Proof.
  intros Hv Ho. pose proof (view_seek s d p offset SEEK_SET Hv) as H.
  rewrite file_seek_target in H. cbn in H.
  destruct (offset <? 0) eqn:E; [apply Z.ltb_lt in E; lia |]. exact H.
Qed.

(** A script block of a stream with a view: the bytes handed to the
    disassembler are the [declared_size] bytes from the header offset, and
    the block ends where they end. *)
Lemma script_block_view
    (descumm : bytes -> option (Z * bytes * bytes)) (fuel : nat)
    (self self1 : Processor) (block_type : bytes) (declared_size : Z)
    (d : bytes) (p : Z) :
  read_header self = Ok (block_type, declared_size, self1) ->
  block_type ∈ [str "SCRP"; str "LSCR"; str "ENCD"; str "EXCD"; str "VERB"] ->
  view (_infile self) = Some (d, p) -> 0 <= p ->
  let data := take (Z.to_nat declared_size) (drop (Z.to_nat p) d) in
  exists f : stream,
    view f = Some (d, p + Z.of_nat (length data))
    /\ _processBlock descumm (S fuel) self
       = match descumm data with
         | None => Raise OSError
         | Some (returncode, out, err) =>
             if negb (returncode =? 0) then Raise (DescummError returncode err)
             else
               let* texts := mapM unescape (TEXT_RE_findall out) in
               let result := concat (map fragment texts) in
               if bool_decide (block_type = str "VERB") then
                 set_current_scripts result (set_infile f self1)
               else
                 Ok (print result
                       (print (str "***** " ++ block_type ++ str " SCRIPT AT: "
                               ++ fmt_08X p ++ str " *****") (set_infile f self1)))
         end.
Proof.
  intros H Hin Hv Hp data.
  rewrite (_processBlock_script_tag descumm fuel _ _ _ _ H Hin).
  rewrite (view_tell _ _ _ Hv).
  pose proof (read_header_spec _ _ _ _ H) as (_ & Hn & _).
  destruct (view_read_header self d p Hv Hp) as (f0 & Hv0 & Hh).
  cbv zeta in Hh. rewrite H in Hh.
  destruct (struct_unpack_BE_I _) as [n | |]; cbn [bind] in Hh; try discriminate.
  injection Hh as _ _ ->. cbn [set_infile _infile].
  destruct (view_seek_SET f0 d _ p Hv0 Hp) as (f1 & Hs1 & Hv1).
  rewrite Hs1. cbn [bind].
  destruct (view_read f1 d p declared_size Hv1) as (f2 & Hr & Hv2).
  assert (Hdata : fst (file_read d p declared_size) = data).
  { unfold file_read. cbn [fst].
    destruct (declared_size <? 0) eqn:E; [apply Z.ltb_lt in E; lia | reflexivity]. }
  rewrite Hdata in Hr, Hv2.
  exists f2. split; [exact Hv2 |].
  unfold _handleScript, _dissassembleScript. cbn [set_infile _infile].
  rewrite Hr. cbn [bind].
  destruct (descumm data) as [[[rc out] err] |]; [| reflexivity].
  destruct (negb (rc =? 0)); [reflexivity |]. cbn [bind].
  rewrite _handleScript_loop_mapM.
  destruct (mapM unescape (TEXT_RE_findall out)) as [texts | |]; reflexivity.
Qed.

(** X15. A global, local, entry or exit script whose disassembly succeeds:
    the disassembler receives the whole block, header included (the
    [declared_size] bytes from the header offset, fewer at the end of the
    file); the output gets the banner with the tag and the offset in eight
    hexadecimal digits, then the report and an empty line; the stream is
    left at the end of the bytes read and the registry is untouched. *)
Theorem standalone_script_printed
    (descumm : bytes -> option (Z * bytes * bytes)) (fuel : nat)
    (self self1 : Processor) (block_type : bytes) (declared_size : Z)
    (d : bytes) (p : Z) (out err : bytes) (texts : list bytes) :
  read_header self = Ok (block_type, declared_size, self1) ->
  block_type ∈ [str "SCRP"; str "LSCR"; str "ENCD"; str "EXCD"] ->
  view (_infile self) = Some (d, p) -> 0 <= p ->
  let data := take (Z.to_nat declared_size) (drop (Z.to_nat p) d) in
  descumm data = Some (0, out, err) ->
  mapM unescape (TEXT_RE_findall out) = Ok texts ->
  exists self' : Processor,
    _processBlock descumm (S fuel) self = Ok self'
    /\ stdout self'
       = stdout self
         ++ (str "***** " ++ block_type ++ str " SCRIPT AT: " ++ fmt_08X p
             ++ str " *****") ++ [newline]
         ++ concat (map fragment texts) ++ [newline]
    /\ view (_infile self') = Some (d, p + Z.of_nat (length data))
    /\ _obj_dict self' = _obj_dict self
    /\ _current_obj self' = _current_obj self
    /\ heap self' = heap self.
Proof.
  intros H Hin Hv Hp data Hd Hm.
  assert (Hin5 : block_type ∈ [str "SCRP"; str "LSCR"; str "ENCD"; str "EXCD"; str "VERB"]).
  { repeat rewrite elem_of_cons in Hin. repeat rewrite elem_of_cons. tauto. }
  assert (Hnv : block_type <> str "VERB").
  { intros ->. repeat (apply elem_of_cons in Hin as [Hin | Hin]; [discriminate |]).
    now apply elem_of_nil in Hin. }
  destruct (script_block_view descumm fuel _ _ _ _ d p H Hin5 Hv Hp) as (f & Hvf & Hb).
  cbv zeta in Hb. fold data in Hb, Hvf. rewrite Hd in Hb. cbn [Z.eqb negb] in Hb.
  rewrite Hm in Hb. cbn [bind] in Hb.
  rewrite (bool_decide_eq_false_2 _ Hnv) in Hb.
  pose proof (read_header_spec _ _ _ _ H) as (_ & _ & _ & Hd1 & Hc1 & Hh1 & Hs1).
  eexists. split; [exact Hb |].
  cbn [print set_infile _infile _obj_dict _current_obj heap stdout].
  rewrite Hs1. repeat split; try assumption.
  now rewrite <- !app_assoc.
Qed.

Lemma standalone_script_printed_witness :
  exists self' : Processor,
    _processBlock descumm_echo 1 (Processor_init (File (block "SCRP" (str "zz\x41")) 0))
      = Ok self'
    /\ stdout self'
       = str "***** SCRP SCRIPT AT: 00000000 *****" ++ [newline]
         ++ fragment (str "zzA") ++ [newline].
Proof.
  destruct (standalone_script_printed descumm_echo 0
              (Processor_init (File (block "SCRP" (str "zz\x41")) 0))
              (Processor_init (File (block "SCRP" (str "zz\x41")) 8))
              (str "SCRP") 14 (block "SCRP" (str "zz\x41")) 0
              (str "Text(" ++ [dquote] ++ str "zz\x41" ++ [dquote] ++ str ")") []
              [str "zzA"] eq_refl (list_elem_of_here _ _) eq_refl ltac:(lia)
              eq_refl eq_refl)
    as (self' & Hb & Hs & _).
  exists self'. split; [exact Hb |]. rewrite Hs. reflexivity.
Defined.

(** X16. A verb script whose disassembly succeeds, met while an object is
    in context: its report becomes the [scripts] of that object, in place of
    whatever the slot held; the name of the object, the other objects, the
    registry and the output are untouched (nothing is printed during the
    walk for a verb script). *)
Theorem verb_script_stored
    (descumm : bytes -> option (Z * bytes * bytes)) (fuel : nat)
    (self self1 : Processor) (declared_size : Z)
    (d : bytes) (p : Z) (out err : bytes) (texts : list bytes) (l : nat) :
  read_header self = Ok (str "VERB", declared_size, self1) ->
  view (_infile self) = Some (d, p) -> 0 <= p ->
  let data := take (Z.to_nat declared_size) (drop (Z.to_nat p) d) in
  descumm data = Some (0, out, err) ->
  mapM unescape (TEXT_RE_findall out) = Ok texts ->
  _current_obj self = Some l ->
  exists self' : Processor,
    _processBlock descumm (S fuel) self = Ok self'
    /\ heap self'
       = <[l := {| name := name (deref (heap self) l);
                   scripts := Some (concat (map fragment texts)) |}]> (heap self)
    /\ stdout self' = stdout self
    /\ view (_infile self') = Some (d, p + Z.of_nat (length data))
    /\ _obj_dict self' = _obj_dict self
    /\ _current_obj self' = Some l.
Proof.
  intros H Hv Hp data Hd Hm Hc.
  assert (Hin5 : str "VERB" ∈ [str "SCRP"; str "LSCR"; str "ENCD"; str "EXCD"; str "VERB"])
    by (do 4 apply list_elem_of_further; apply list_elem_of_here).
  destruct (script_block_view descumm fuel _ _ _ _ d p H Hin5 Hv Hp) as (f & Hvf & Hb).
  cbv zeta in Hb. fold data in Hb, Hvf. rewrite Hd in Hb. cbn [Z.eqb negb] in Hb.
  rewrite Hm in Hb. cbn [bind] in Hb.
  rewrite bool_decide_eq_true_2 in Hb by reflexivity.
  pose proof (read_header_spec _ _ _ _ H) as (_ & _ & _ & Hd1 & Hc1 & Hh1 & Hs1).
  unfold set_current_scripts in Hb. cbn [set_infile _current_obj heap] in Hb.
  rewrite Hc1, Hc, Hh1 in Hb.
  eexists. split; [exact Hb |].
  cbn [set_heap set_infile _infile _obj_dict _current_obj heap stdout].
  repeat split; try assumption. now rewrite Hc1.
Qed.

Lemma verb_script_stored_witness :
  exists self' : Processor,
    _processBlock descumm_echo 1
        {| _infile := File (block "VERB" (str "new")) 0;
           _obj_dict := {[ 0 := 0%nat ]}; _current_obj := Some 0%nat;
           heap := [ {| name := Some (str "Foo"); scripts := Some (str "old") |} ];
           stdout := [] |}
      = Ok self'
    /\ heap self'
       = [ {| name := Some (str "Foo"); scripts := Some (fragment (str "new")) |} ].
Proof.
  destruct (verb_script_stored descumm_echo 0
              {| _infile := File (block "VERB" (str "new")) 0;
                 _obj_dict := {[ 0 := 0%nat ]}; _current_obj := Some 0%nat;
                 heap := [ {| name := Some (str "Foo"); scripts := Some (str "old") |} ];
                 stdout := [] |}
              {| _infile := File (block "VERB" (str "new")) 8;
                 _obj_dict := {[ 0 := 0%nat ]}; _current_obj := Some 0%nat;
                 heap := [ {| name := Some (str "Foo"); scripts := Some (str "old") |} ];
                 stdout := [] |}
              11 (block "VERB" (str "new")) 0
              (str "Text(" ++ [dquote] ++ str "new" ++ [dquote] ++ str ")") []
              [str "new"] 0%nat eq_refl eq_refl ltac:(lia) eq_refl eq_refl eq_refl)
    as (self' & Hb & Hh & _).
  exists self'. split; [exact Hb |]. rewrite Hh. reflexivity.
Defined.



(** X18. A verb script met while no object is in context: the script is
    disassembled and its strings are unescaped first, and the assignment
    then fails with [AttributeError]. *)
Theorem verb_script_without_object
    (descumm : bytes -> option (Z * bytes * bytes)) (fuel : nat)
    (self self1 : Processor) (declared_size : Z)
    (d : bytes) (p : Z) (out err : bytes) (texts : list bytes) :
  read_header self = Ok (str "VERB", declared_size, self1) ->
  view (_infile self) = Some (d, p) -> 0 <= p ->
  descumm (take (Z.to_nat declared_size) (drop (Z.to_nat p) d)) = Some (0, out, err) ->
  mapM unescape (TEXT_RE_findall out) = Ok texts ->
  _current_obj self = None ->
  _processBlock descumm (S fuel) self = Raise AttributeError.
Proof.
  intros H Hv Hp Hd Hm Hc.
  assert (Hin5 : str "VERB" ∈ [str "SCRP"; str "LSCR"; str "ENCD"; str "EXCD"; str "VERB"])
    by (do 4 apply list_elem_of_further; apply list_elem_of_here).
  destruct (script_block_view descumm fuel _ _ _ _ d p H Hin5 Hv Hp) as (f & _ & Hb).
  cbv zeta in Hb. rewrite Hd in Hb. cbn [Z.eqb negb] in Hb.
  rewrite Hm in Hb. cbn [bind] in Hb.
  rewrite bool_decide_eq_true_2 in Hb by reflexivity.
  pose proof (read_header_spec _ _ _ _ H) as (_ & _ & _ & _ & Hc1 & _).
  unfold set_current_scripts in Hb. cbn [set_infile _current_obj] in Hb.
  now rewrite Hc1, Hc in Hb.
Qed.

Lemma verb_script_without_object_witness :
  _processBlock descumm_echo 1 (Processor_init (File (block "VERB" (str "a")) 0))
    = Raise AttributeError.
Proof.
  exact (verb_script_without_object descumm_echo 0
           (Processor_init (File (block "VERB" (str "a")) 0))
           (Processor_init (File (block "VERB" (str "a")) 8))
           9 (block "VERB" (str "a")) 0
           (str "Text(" ++ [dquote] ++ str "a" ++ [dquote] ++ str ")") []
           [str "a"] eq_refl eq_refl ltac:(lia) eq_refl eq_refl eq_refl).
Defined.

(** ** The decryption is transparent *)

Lemma same_outcome_bind {A B : Type} (R : A -> A -> Prop) (S : B -> B -> Prop)
    (m1 m2 : outcome A) (k1 k2 : A -> outcome B) :
  same_outcome R m1 m2 ->
  (forall a1 a2 : A, R a1 a2 -> same_outcome S (k1 a1) (k2 a2)) ->
  same_outcome S (bind m1 k1) (bind m2 k2).
Proof.
  intros Hm Hk. destruct m1 as [a1 | e1 |], m2 as [a2 | e2 |]; cbn in Hm |- *;
    try contradiction; auto.
Qed.

Lemma bind_assoc {A B C : Type} (m : outcome A) (f : A -> outcome B)
    (g : B -> outcome C) :
  bind (bind m f) g = bind m (fun x => bind (f x) g).
Proof. now destruct m. Qed.

Lemma same_stream_tell (s1 s2 : stream) : same_stream s1 s2 -> tell s1 = tell s2.
Proof.
  intros (d & p & H1 & H2). now rewrite (view_tell _ _ _ H1), (view_tell _ _ _ H2).
Qed.

Lemma same_stream_read (s1 s2 : stream) (n : Z) :
  same_stream s1 s2 ->
  same_outcome (fun a b => a.1 = b.1 /\ same_stream a.2 b.2) (read s1 n) (read s2 n).
Proof.
  intros (d & p & H1 & H2).
  destruct (view_read s1 d p n H1) as (s1' & Hr1 & Hv1).
  destruct (view_read s2 d p n H2) as (s2' & Hr2 & Hv2).
  rewrite Hr1, Hr2. cbn. split; [reflexivity |]. now exists d, (p + Z.of_nat (length (file_read d p n).1)).
Qed.

Lemma same_stream_seek (s1 s2 : stream) (offset whence : Z) :
  same_stream s1 s2 ->
  same_outcome same_stream (seek s1 offset whence) (seek s2 offset whence).
Proof.
  intros (d & p & H1 & H2).
  pose proof (view_seek s1 d p offset whence H1) as K1.
  pose proof (view_seek s2 d p offset whence H2) as K2.
  destruct (file_seek d p offset whence) as [f | e |].
  - destruct K1 as (s1' & -> & Hv1). destruct K2 as (s2' & -> & Hv2).
    cbn. now exists d, (tell f).
  - rewrite K1, K2. reflexivity.
  - contradiction.
Qed.

Lemma same_processor_set_infile (p1 p2 : Processor) (f1 f2 : stream) :
  same_processor p1 p2 -> same_stream f1 f2 ->
  same_processor (set_infile f1 p1) (set_infile f2 p2).
Proof.
  intros (_ & Hd & Hc & Hh & Hs) Hf. repeat split; assumption.
Qed.

Lemma same_processor_print (line : bytes) (p1 p2 : Processor) :
  same_processor p1 p2 -> same_processor (print line p1) (print line p2).
Proof.
  intros (Hi & Hd & Hc & Hh & Hs). repeat split; try assumption.
  cbn [print stdout]. now rewrite Hs.
Qed.

Lemma same_processor_new_current_obj (hdr_offset : Z) (p1 p2 : Processor) :
  same_processor p1 p2 ->
  same_processor (new_current_obj hdr_offset p1) (new_current_obj hdr_offset p2).
Proof.
  intros (Hi & Hd & Hc & Hh & Hs). unfold new_current_obj.
  repeat split; cbn; try assumption; now rewrite ?Hd, ?Hh.
Qed.

Lemma same_set_current_scripts (result : bytes) (p1 p2 : Processor) :
  same_processor p1 p2 ->
  same_outcome same_processor (set_current_scripts result p1) (set_current_scripts result p2).
Proof.
  intros (Hi & Hd & Hc & Hh & Hs). unfold set_current_scripts. rewrite Hc, Hh.
  destruct (_current_obj p2) eqn:E; cbn; [| reflexivity].
  repeat split; cbn; congruence.
Qed.

Lemma same_set_current_name (result : bytes) (p1 p2 : Processor) :
  same_processor p1 p2 ->
  same_outcome same_processor (set_current_name result p1) (set_current_name result p2).
Proof.
  intros (Hi & Hd & Hc & Hh & Hs). unfold set_current_name. rewrite Hc, Hh.
  destruct (_current_obj p2) eqn:E; cbn; [| reflexivity].
  repeat split; cbn; congruence.
Qed.

Lemma same_readASCIIZ_loop (fuel : nat) :
  forall (s1 s2 : stream) (out : bytes),
    same_stream s1 s2 ->
    same_outcome (fun a b => a.1 = b.1 /\ same_stream a.2 b.2)
      (_readASCIIZ_loop fuel s1 out) (_readASCIIZ_loop fuel s2 out).
Proof.
  induction fuel as [| fuel IH]; intros s1 s2 out Hs; [exact I |].
  cbn [_readASCIIZ_loop].
  apply (same_outcome_bind _ _ _ _ _ _ (same_stream_read s1 s2 1 Hs)).
  intros [ch1 f1] [ch2 f2] [Hch Hf]. cbn [fst snd] in Hch, Hf. subst ch2.
  destruct (bool_decide (ch1 = [NUL])); [cbn; auto | now apply IH].
Qed.

Section Transparent.

Variable descumm : bytes -> option (Z * bytes * bytes).

Lemma same_handleScript (size : Z) (p1 p2 : Processor) :
  same_processor p1 p2 ->
  same_outcome (fun a b => a.1 = b.1 /\ same_processor a.2 b.2)
    (_handleScript descumm size p1) (_handleScript descumm size p2).
Proof.
  intros Hp. unfold _handleScript, _dissassembleScript.
  apply (same_outcome_bind (fun a b => a.1 = b.1 /\ same_processor a.2 b.2)).
  - apply (same_outcome_bind _ _ _ _ _ _ (same_stream_read _ _ size (proj1 Hp))).
    intros [d1 f1] [d2 f2] [Hd Hf]. cbn [fst snd] in Hd, Hf. subst d2.
    destruct (descumm d1) as [[[rc out] err] |]; [| reflexivity].
    destruct (negb (rc =? 0)); [reflexivity |]. cbn.
    split; [reflexivity |]. now apply same_processor_set_infile.
  - intros [r1 u1] [r2 u2] [Hr Hu]. cbn [fst snd] in Hr, Hu. subst r2.
    destruct (_handleScript_loop _ []); cbn; auto.
Qed.

Lemma same_processSubBlocks_loop (pb : Processor -> outcome Processor) :
  (forall a b : Processor,
      same_processor a b -> same_outcome same_processor (pb a) (pb b)) ->
  forall (fuel : nat) (end_ : Z) (p1 p2 : Processor),
    same_processor p1 p2 ->
    same_outcome same_processor
      (_processSubBlocks_loop pb fuel end_ p1) (_processSubBlocks_loop pb fuel end_ p2).
Proof.
  intros Hpb fuel end_. induction fuel as [| fuel IH]; intros p1 p2 Hp;
    cbn [_processSubBlocks_loop]; rewrite (same_stream_tell _ _ (proj1 Hp));
    destruct (tell (_infile p2) <? end_); try exact I; try exact Hp.
  apply (same_outcome_bind _ _ _ _ _ _ (Hpb _ _ Hp)). intros a b Hab. now apply IH.
Qed.

Lemma same_processSubBlocks (pb : Processor -> outcome Processor) :
  (forall a b : Processor,
      same_processor a b -> same_outcome same_processor (pb a) (pb b)) ->
  forall (fuel : nat) (size : Z) (p1 p2 : Processor),
    same_processor p1 p2 ->
    same_outcome same_processor
      (_processSubBlocks pb fuel size p1) (_processSubBlocks pb fuel size p2).
Proof.
  intros Hpb fuel size p1 p2 Hp. unfold _processSubBlocks.
  rewrite (same_stream_tell _ _ (proj1 Hp)).
  apply (same_outcome_bind _ _ _ _ _ _
           (same_processSubBlocks_loop pb Hpb fuel _ _ _ Hp)).
  intros a b Hab. rewrite (same_stream_tell _ _ (proj1 Hab)).
  destruct (_ >? _); [reflexivity | exact Hab].
Qed.

Lemma same_processBlock (fuel : nat) :
  forall p1 p2 : Processor,
    same_processor p1 p2 ->
    same_outcome same_processor
      (_processBlock descumm fuel p1) (_processBlock descumm fuel p2).
Proof.
  induction fuel as [| fuel IH]; intros p1 p2 Hp; [exact I |].
  cbn [_processBlock]. rewrite (same_stream_tell _ _ (proj1 Hp)).
  apply (same_outcome_bind _ _ _ _ _ _ (same_stream_read _ _ 4 (proj1 Hp))).
  intros [bt f1] [bt' f2] [Hbt Hf]. cbn [fst snd] in Hbt, Hf. subst bt'.
  cbn [set_infile _infile].
  apply (same_outcome_bind _ _ _ _ _ _ (same_stream_read _ _ 4 Hf)).
  intros [raw g1] [raw' g2] [Hraw Hg]. cbn [fst snd] in Hraw, Hg. subst raw'.
  destruct (struct_unpack_BE_I raw) as [raw_size | e |]; cbn [bind];
    [| reflexivity | exact I].
  assert (Hq : same_processor (set_infile g1 (set_infile f1 p1))
                              (set_infile g2 (set_infile f2 p2))).
  { apply same_processor_set_infile; [| exact Hg].
    now apply same_processor_set_infile. }
  set (q1 := set_infile g1 (set_infile f1 p1)) in *.
  set (q2 := set_infile g2 (set_infile f2 p2)) in *.
  destruct (in_tuple bt [str "LECF"; str "LFLF"; str "ROOM"]).
  { now apply same_processSubBlocks. }
  destruct (in_tuple bt _).
  { apply (same_outcome_bind same_stream);
      [apply same_stream_seek; exact (proj1 Hq) |].
    intros h1 h2 Hh.
    apply (same_outcome_bind (fun a b => a.1 = b.1 /\ same_processor a.2 b.2));
      [apply same_handleScript; now apply same_processor_set_infile |].
    intros [r1 u1] [r2 u2] [Hr Hu]. cbn [fst snd] in Hr, Hu. subst r2.
    destruct (bool_decide (bt = str "VERB")).
    - now apply same_set_current_scripts.
    - cbn. now do 2 apply same_processor_print. }
  destruct (bool_decide (bt = str "OBCD")).
  { apply same_processSubBlocks; [exact IH |].
    now apply same_processor_new_current_obj. }
  destruct (bool_decide (bt = str "OBNA")).
  { unfold _readASCIIZ.
    apply (same_outcome_bind (fun a b => a.1 = b.1 /\ same_processor a.2 b.2)).
    - pose proof (same_readASCIIZ_loop fuel _ _ [] (proj1 Hq)) as Hl.
      destruct (_readASCIIZ_loop fuel (_infile q1) []) as [[s1 h1] | |],
               (_readASCIIZ_loop fuel (_infile q2) []) as [[s2 h2] | |];
        cbn in Hl |- *; try contradiction; try assumption.
      destruct Hl as [-> Hh]. split; [reflexivity |].
      now apply same_processor_set_infile.
    - intros [s1 u1] [s2 u2] [Hs Hu]. cbn [fst snd] in Hs, Hu. subst s2.
      now apply same_set_current_name. }
  destruct (isValidBlockType bt) as [valid | e |]; cbn [bind];
    [| reflexivity | exact I].
  destruct (negb valid); [reflexivity |].
  apply (same_outcome_bind same_stream);
    [apply same_stream_seek; exact (proj1 Hq) |].
  intros h1 h2 Hh. cbn. now apply same_processor_set_infile.
Qed.

Lemma same_process_loop (items : list (Z * nat)) :
  forall p1 p2 : Processor,
    same_processor p1 p2 ->
    same_outcome same_processor (process_loop items p1) (process_loop items p2).
Proof.
  induction items as [| [key l] items IH]; intros p1 p2 Hp; [exact Hp |].
  destruct p1 as [i1 d1 c1 h1 o1], p2 as [i2 d2 c2 h2 o2].
  destruct Hp as (Hi & Hd & Hc & Hh & Hs). cbn in Hi, Hd, Hc, Hh, Hs. subst.
  cbn [process_loop heap].
  destruct (name (deref h2 l)) as [nm |]; [| reflexivity].
  cbn [print heap _infile _obj_dict _current_obj stdout].
  destruct (scripts (deref h2 l)) as [sc |]; [| reflexivity].
  apply IH. repeat split; cbn; try reflexivity. exact Hi.
Qed.

Lemma same_process (fuel : nat) (p1 p2 : Processor) :
  same_processor p1 p2 ->
  same_outcome same_processor (process descumm fuel p1) (process descumm fuel p2).
Proof.
  intros Hp. unfold process.
  apply (same_outcome_bind _ _ _ _ _ _ (same_processBlock fuel _ _ Hp)).
  intros a b Hab. rewrite (proj1 (proj2 Hab)). now apply same_process_loop.
Qed.

End Transparent.

Lemma lxor_cancel_key (a b k L : Z) :
  Z.lxor (Z.lxor a k) (Z.lxor (Z.lxor b k) L) = Z.lxor a (Z.lxor b L).
Proof.
  apply Z.bits_inj'. intros n _. rewrite !Z.lxor_spec.
  destruct (Z.testbit a n), (Z.testbit b n), (Z.testbit k n), (Z.testbit L n);
    reflexivity.
Qed.

Lemma xor_byte_rekey (k : Z) (b0 x : ascii) :
  0 <= k < 256 ->
  xor_byte (key_of (xor_byte k b0)) (xor_byte k x) = xor_byte (key_of b0) x.
Proof.
  intros Hk. unfold xor_byte at 1. unfold key_of at 1.
  rewrite !ord_xor_byte by exact Hk. rewrite lxor_cancel_key. reflexivity.
Qed.

Lemma map_xor_byte_rekey (k : Z) (b0 : ascii) (l : bytes) :
  0 <= k < 256 ->
  map (xor_byte (key_of (xor_byte k b0))) (map (xor_byte k) l)
    = map (xor_byte (key_of b0)) l.
Proof.
  intros Hk. induction l as [| x l IH]; [reflexivity |].
  cbn [map]. now rewrite xor_byte_rekey, IH.
Qed.

(** The streams [main] builds for a file and for the same file under one
    more layer of XOR show the same bytes. *)
Lemma main_open_same (file : bytes) (k : Z) :
  0 <= k < 256 ->
  same_outcome same_stream (main_open (map (xor_byte k) file)) (main_open file).
Proof.
  intros Hk. destruct file as [| b0 rest]; [exact eq_refl |].
  cbn [map]. rewrite !main_open_eq.
  rewrite firstn_map, map_xor_byte_rekey by exact Hk.
  destruct (bool_decide _); [| exact eq_refl].
  cbn [same_outcome]. exists (map (xor_byte (key_of b0)) (b0 :: rest)), 0.
  pose proof (key_of_range b0) as R1. pose proof (key_of_range (xor_byte k b0)) as R2.
  cbn [view].
  replace ((0 <=? key_of b0) && (key_of b0 <? 256)) with true
    by (symmetry; apply andb_true_iff; split; [apply Z.leb_le | apply Z.ltb_lt]; lia).
  replace ((0 <=? key_of (xor_byte k b0)) && (key_of (xor_byte k b0) <? 256)) with true
    by (symmetry; apply andb_true_iff; split; [apply Z.leb_le | apply Z.ltb_lt]; lia).
  split; [| reflexivity].
  change (xor_byte k b0 :: map (xor_byte k) rest) with (map (xor_byte k) (b0 :: rest)).
  now rewrite map_xor_byte_rekey.
Qed.

(** X19. The obfuscation is transparent: XORing every byte of an archive
    with one more byte key changes neither what the run prints nor the
    outcome and return value of [main]. *)
Theorem decryption_transparent
    (descumm : bytes -> option (Z * bytes * bytes)) (fuel : nat)
    (file : bytes) (k : Z) :
  0 <= k < 256 ->
  report descumm fuel (map (xor_byte k) file) = report descumm fuel file
  /\ (forall scumm_ver : Z,
        main descumm fuel scumm_ver (Some (map (xor_byte k) file))
          = main descumm fuel scumm_ver (Some file)).
Proof.
  intros Hk.
  assert (Hrun : same_outcome same_processor
                   (let* infile := main_open (map (xor_byte k) file) in
                    process descumm fuel (Processor_init infile))
                   (let* infile := main_open file in
                    process descumm fuel (Processor_init infile))).
  { apply (same_outcome_bind _ _ _ _ _ _ (main_open_same file k Hk)).
    intros s1 s2 Hs. apply same_process. repeat split; try reflexivity. exact Hs. }
  split.
  - unfold report. rewrite <- !bind_assoc.
    destruct (let* infile := main_open (map (xor_byte k) file) in _) as [q1 | e1 |],
             (let* infile := main_open file in _) as [q2 | e2 |];
      cbn in Hrun |- *; try contradiction; try congruence.
    destruct Hrun as (_ & _ & _ & _ & Hs). now rewrite Hs.
  - intros v. unfold main. destruct (negb (v =? 5)); [reflexivity |].
    destruct (let* infile := main_open (map (xor_byte k) file) in _) as [q1 | e1 |],
             (let* infile := main_open file in _) as [q2 | e2 |];
      cbn in Hrun; try contradiction; try reflexivity. now subst.
Qed.

Lemma decryption_transparent_witness :
  report descumm_echo 8 (map (xor_byte 105) example_archive)
    = Ok (str "***** SCRP SCRIPT AT: 00000025 *****" ++ [newline]
          ++ fragment (str "zzA") ++ [newline]
          ++ str "***** OBJECT AT: 00000008 (Foo) *****" ++ [newline]
          ++ fragment (str "a") ++ [newline]).
Proof.
  rewrite (proj1 (decryption_transparent descumm_echo 8 example_archive 105 ltac:(lia))).
  vm_compute. reflexivity.
Defined.

(** ** What every step of the walk preserves *)

Section Preserved.

Variable descumm : bytes -> option (Z * bytes * bytes).
Variable P : Processor -> Processor -> Prop.

Hypothesis P_refl : forall a : Processor, P a a.
Hypothesis P_trans : forall a b c : Processor, P a b -> P b c -> P a c.
Hypothesis P_set_infile : forall (f : stream) (a : Processor), P a (set_infile f a).
Hypothesis P_print : forall (line : bytes) (a : Processor), P a (print line a).
Hypothesis P_new_current_obj :
  forall (hdr_offset : Z) (a : Processor), P a (new_current_obj hdr_offset a).
Hypothesis P_set_current_scripts :
  forall (r : bytes) (a b : Processor), set_current_scripts r a = Ok b -> P a b.
Hypothesis P_set_current_name :
  forall (r : bytes) (a b : Processor), set_current_name r a = Ok b -> P a b.

Lemma _processSubBlocks_preserved (pb : Processor -> outcome Processor) :
  (forall a b : Processor, pb a = Ok b -> P a b) ->
  forall (fuel : nat) (size : Z) (self self' : Processor),
    _processSubBlocks pb fuel size self = Ok self' -> P self self'.
Proof.
  intros Hpb fuel size self self'. unfold _processSubBlocks.
  generalize (tell (_infile self) + size). intros end_.
  destruct (_processSubBlocks_loop pb fuel end_ self) as [s1 | |] eqn:E; try discriminate.
  cbn [bind]. destruct (_ >? _); [discriminate |].
  intros H. injection H as <-. revert self E.
  induction fuel as [| fuel IH]; intros self E; cbn [_processSubBlocks_loop] in E.
  - destruct (tell (_infile self) <? end_); [discriminate |]. injection E as <-. apply P_refl.
  - destruct (tell (_infile self) <? end_); [| injection E as <-; apply P_refl].
    destruct (pb self) as [self1 | |] eqn:E1; try discriminate. cbn [bind] in E.
    exact (P_trans _ _ _ (Hpb _ _ E1) (IH _ E)).
Qed.

Lemma _processBlock_preserved (fuel : nat) :
  forall self self' : Processor,
    _processBlock descumm fuel self = Ok self' -> P self self'.
Proof.
  induction fuel as [| fuel IH]; intros self self' H; [discriminate |].
  cbn [_processBlock] in H.
  destruct (read (_infile self) 4) as [[block_type f1] | |]; try discriminate.
  cbn [bind] in H.
  destruct (read (_infile (set_infile f1 self)) 4) as [[raw f2] | |]; try discriminate.
  cbn [bind] in H.
  destruct (struct_unpack_BE_I raw) as [raw_size | |]; try discriminate.
  cbn [bind] in H.
  assert (K1 : P self (set_infile f2 (set_infile f1 self)))
    by (eapply P_trans; apply P_set_infile).
  set (self1 := set_infile f2 (set_infile f1 self)) in *.
  apply (P_trans _ _ _ K1). clear K1.
  destruct (in_tuple block_type [str "LECF"; str "LFLF"; str "ROOM"]).
  { exact (_processSubBlocks_preserved _ IH _ _ _ _ H). }
  destruct (in_tuple block_type _).
  { destruct (seek (_infile self1) (tell (_infile self)) SEEK_SET) as [f | |];
      try discriminate. cbn [bind] in H.
    destruct (_handleScript descumm raw_size (set_infile f self1))
      as [[result self2] | |] eqn:E; try discriminate. cbn [bind] in H.
    apply _handleScript_fields in E as [f' ->].
    apply (P_trans _ (set_infile f self1)); [apply P_set_infile |].
    apply (P_trans _ (set_infile f' (set_infile f self1))); [apply P_set_infile |].
    destruct (bool_decide (block_type = str "VERB")).
    - exact (P_set_current_scripts _ _ _ H).
    - injection H as <-. eapply P_trans; apply P_print. }
  destruct (bool_decide (block_type = str "OBCD")).
  { apply (P_trans _ (new_current_obj (tell (_infile self)) self1));
      [apply P_new_current_obj |].
    exact (_processSubBlocks_preserved _ IH _ _ _ _ H). }
  destruct (bool_decide (block_type = str "OBNA")).
  { destruct (_readASCIIZ fuel self1) as [[s self2] | |] eqn:E; try discriminate.
    cbn [bind] in H. apply _readASCIIZ_fields in E as [f' ->].
    apply (P_trans _ (set_infile f' self1)); [apply P_set_infile |].
    exact (P_set_current_name _ _ _ H). }
  destruct (isValidBlockType block_type) as [valid | |]; try discriminate.
  cbn [bind] in H. destruct (negb valid); [discriminate |].
  destruct (seek (_infile self1) (raw_size - hdr_size) SEEK_CUR) as [f | |];
    try discriminate. cbn [bind] in H. injection H as <-. apply P_set_infile.
Qed.

End Preserved.

Lemma current_obj_kept_steps :
  let P := fun a b : Processor => is_Some (_current_obj a) -> is_Some (_current_obj b) in
  (forall a, P a a) /\ (forall a b c, P a b -> P b c -> P a c)
  /\ (forall f a, P a (set_infile f a)) /\ (forall line a, P a (print line a))
  /\ (forall off a, P a (new_current_obj off a))
  /\ (forall r a b, set_current_scripts r a = Ok b -> P a b)
  /\ (forall r a b, set_current_name r a = Ok b -> P a b).
Proof.
  cbv zeta. repeat split; try tauto.
  - intros off a _. cbn. eauto.
  - intros r a b. unfold set_current_scripts.
    destruct (_current_obj a) eqn:E; [| discriminate].
    intros H _. injection H as <-. cbn. rewrite E. eauto.
  - intros r a b. unfold set_current_name.
    destruct (_current_obj a) eqn:E; [| discriminate].
    intros H _. injection H as <-. cbn. rewrite E. eauto.
Qed.

(** X20. The current-object slot is never cleared: once an object is in
    context it stays so after every block, also after the object container
    has been left; and after an object container has been processed, an
    object is in context and the header offset of the container is
    registered. *)
Theorem current_obj_never_cleared
    (descumm : bytes -> option (Z * bytes * bytes)) (fuel : nat)
    (self self' : Processor) :
  _processBlock descumm fuel self = Ok self' ->
  (is_Some (_current_obj self) -> is_Some (_current_obj self'))
  /\ (forall (declared_size : Z) (self1 : Processor),
        read_header self = Ok (str "OBCD", declared_size, self1) ->
        is_Some (_current_obj self')
        /\ is_Some (_obj_dict self' !! tell (_infile self))).
Proof.
  intros H.
  destruct current_obj_kept_steps as (R & T & S1 & S2 & S3 & S4 & S5).
  split.
  - exact (_processBlock_preserved descumm _ R T S1 S2 S3 S4 S5 fuel _ _ H).
  - intros declared_size self1 Hh.
    destruct fuel as [| fuel]; [discriminate |].
    rewrite (_processBlock_OBCD descumm fuel _ _ _ Hh) in H.
    split.
    + apply (_processSubBlocks_preserved _ R T _
               (_processBlock_preserved descumm _ R T S1 S2 S3 S4 S5 fuel) _ _ _ _ H).
      cbn. eauto.
    + pose proof (_processSubBlocks_keeps _ (_processBlock_keeps descumm fuel) _ _ _ _ H)
        as (_ & _ & _ & Hd).
      apply Hd. cbn. rewrite lookup_insert_eq. eauto.
Qed.

Lemma current_obj_never_cleared_witness :
  exists self' : Processor,
    _processBlock descumm_echo 1
        {| _infile := File (block "PADD" []) 0; _obj_dict := {[ 0 := 0%nat ]};
           _current_obj := Some 0%nat;
           heap := [ {| name := Some (str "Foo"); scripts := None |} ];
           stdout := [] |}
      = Ok self'
    /\ is_Some (_current_obj self').
Proof.
  eexists. split; [vm_compute; reflexivity |].
  refine (proj1 (current_obj_never_cleared descumm_echo 1
                   {| _infile := File (block "PADD" []) 0; _obj_dict := {[ 0 := 0%nat ]};
                      _current_obj := Some 0%nat;
                      heap := [ {| name := Some (str "Foo"); scripts := None |} ];
                      stdout := [] |} _ _) _).
  - vm_compute. reflexivity.
  - cbn. eauto.
Defined.

(** ** Empty containers *)

(** X21. A container that declares just its header (size 8) is accepted
    without reading anything more: the stream is left after the header; an
    empty object container still creates and registers its object, with no
    name and no scripts. *)
Theorem empty_container_accepted
    (descumm : bytes -> option (Z * bytes * bytes)) (fuel : nat)
    (self self1 : Processor) (block_type : bytes) :
  read_header self = Ok (block_type, 8, self1) ->
  block_type ∈ [str "LECF"; str "LFLF"; str "ROOM"; str "OBCD"] ->
  _processBlock descumm (S fuel) self
    = Ok (if bool_decide (block_type = str "OBCD")
          then new_current_obj (tell (_infile self)) self1 else self1)
  /\ tell (_infile self1) = tell (_infile self) + 8.
Proof.
  intros H Hin.
  destruct (container_dispatch descumm fuel _ _ _ _ H Hin) as (Hpb & Hstart & _).
  cbv zeta in Hpb, Hstart. rewrite Hpb. unfold _processSubBlocks.
  rewrite _processSubBlocks_loop_done by lia. cbn [bind].
  split.
  - destruct (_ >? _) eqn:G; [lia | reflexivity].
  - rewrite <- Hstart. now destruct (bool_decide _).
Qed.

Lemma empty_container_accepted_witness :
  _processBlock descumm_echo 1 (Processor_init (File (block "OBCD" []) 0))
    = Ok (new_current_obj 0 (Processor_init (File (block "OBCD" []) 8))).
Proof.
  refine (proj1 (empty_container_accepted descumm_echo 0
                   (Processor_init (File (block "OBCD" []) 0))
                   (Processor_init (File (block "OBCD" []) 8))
                   (str "OBCD") eq_refl _)).
  do 3 apply list_elem_of_further. apply list_elem_of_here.
Defined.

(** ** The assertion of [isValidBlockType] *)

Lemma int_base16_Raise (s : bytes) (e : exn) :
  int_base16 s = Raise e -> e = ValueError.
Proof. unfold int_base16. repeat case_match; congruence. Qed.

Lemma chr_Raise (i : Z) (e : exn) : chr i = Raise e -> e = ValueError.
Proof. unfold chr. destruct ((0 <=? i) && (i <? 256)); congruence. Qed.

Lemma unescape_loop_Raise (string : bytes) (fuel pos : nat) (out : bytes) (e : exn) :
  unescape_loop fuel string pos out = Raise e ->
  e = IndexError \/ e = ValueError \/ exists msg : bytes, e = WTFError msg.
Proof.
  revert pos out. induction fuel as [| fuel IH]; intros pos out H.
  - cbn [unescape_loop] in H. destruct (decide _); discriminate.
  - rewrite unescape_loop_S in H.
    destruct (decide (pos < length string)%nat); [| discriminate].
    destruct (string !! pos) as [ch |]; [| injection H as <-; auto].
    destruct (negb (bool_decide (ch = backslash))); [exact (IH _ _ H) |].
    destruct (string !! (pos + 1)%nat) as [ch' |]; [| injection H as <-; auto].
    destruct (bool_decide (ch' = "x"%char)).
    + destruct (int_base16 _) as [v | e1 |] eqn:E1; cbn [bind] in H; try discriminate.
      * destruct (chr v) as [c | e2 |] eqn:E2; cbn [bind] in H; try discriminate.
        -- exact (IH _ _ H).
        -- injection H as <-. right. left. exact (chr_Raise _ _ E2).
      * injection H as <-. right. left. exact (int_base16_Raise _ _ E1).
    + destruct (bool_decide (ch' = backslash)); [exact (IH _ _ H) |].
      injection H as <-. eauto.
Qed.

Lemma _handleScript_loop_Raise (matches : list bytes) (out : bytes) (e : exn) :
  _handleScript_loop matches out = Raise e -> e <> AssertionError.
Proof.
  revert out. induction matches as [| m matches IH]; intros out H; [discriminate |].
  cbn [_handleScript_loop] in H.
  destruct (unescape m) as [u | e1 |] eqn:E; cbn [bind] in H; try discriminate.
  - exact (IH _ H).
  - injection H as <-. apply unescape_loop_Raise in E as [-> | [-> | [msg ->]]];
      discriminate.
Qed.

Lemma _readASCIIZ_loop_view_inv (d : bytes) (fuel : nat) :
  forall (s : stream) (p : Z) (out : bytes),
    view s = Some (d, p) -> 0 <= p ->
    match _readASCIIZ_loop fuel s out with
    | Ok (_, s') => exists p' : Z, view s' = Some (d, p') /\ 0 <= p'
    | Raise _ => False
    | Diverge => True
    end.
Proof.
  induction fuel as [| fuel IH]; intros s p out Hv Hp; [exact I |].
  cbn [_readASCIIZ_loop].
  destruct (view_read s d p 1 Hv) as (s1 & Hr & Hv1). rewrite Hr. cbn [bind].
  destruct (bool_decide _).
  - eexists. split; [exact Hv1 | lia].
  - apply (IH _ _ _ Hv1). lia.
Qed.

Section NoAssertion.

Variable descumm : bytes -> option (Z * bytes * bytes).

Lemma _processSubBlocks_walk_ok (d : bytes) (pb : Processor -> outcome Processor) :
  (forall (a : Processor) (p : Z),
      view (_infile a) = Some (d, p) -> 0 <= p -> walk_ok d (pb a)) ->
  forall (fuel : nat) (size : Z) (self : Processor) (p : Z),
    view (_infile self) = Some (d, p) -> 0 <= p ->
    walk_ok d (_processSubBlocks pb fuel size self).
Proof.
  intros Hpb fuel size self p Hv Hp. unfold _processSubBlocks.
  generalize (tell (_infile self) + size). intros end_.
  assert (Hl : walk_ok d (_processSubBlocks_loop pb fuel end_ self)).
  { revert self p Hv Hp. induction fuel as [| fuel IH]; intros self p Hv Hp;
      cbn [_processSubBlocks_loop]; destruct (_ <? _); try exact I; try (cbn; eauto).
    specialize (Hpb _ _ Hv Hp).
    destruct (pb self) as [self1 | e |]; cbn [bind]; try exact Hpb.
    destruct Hpb as (p1 & Hv1 & Hp1). exact (IH _ _ Hv1 Hp1). }
  destruct (_processSubBlocks_loop pb fuel end_ self) as [s1 | e |]; cbn [bind];
    try exact Hl.
  destruct (_ >? _); [cbn; discriminate | exact Hl].
Qed.

Lemma _processBlock_walk_ok (d : bytes) (fuel : nat) :
  forall (self : Processor) (p : Z),
    view (_infile self) = Some (d, p) -> 0 <= p ->
    walk_ok d (_processBlock descumm fuel self).
Proof.
  induction fuel as [| fuel IH]; intros self p Hv Hp; [exact I |].
  cbn [_processBlock].
  destruct (view_read _ d p 4 Hv) as (f1 & Hr1 & Hv1). rewrite Hr1. cbn [bind].
  cbn [set_infile _infile].
  destruct (view_read _ d _ 4 Hv1) as (f2 & Hr2 & Hv2). rewrite Hr2. cbn [bind].
  set (tag := (file_read d p 4).1) in *.
  set (raw := (file_read d (p + Z.of_nat (length tag)) 4).1) in *.
  destruct (struct_unpack_BE_I raw) as [raw_size | e |] eqn:Eu; cbn [bind];
    [| | exact I].
  2: { destruct raw as [| b0 [| b1 [| b2 [| b3 [| ? ?]]]]]; cbn in Eu;
         try discriminate; injection Eu as <-; cbn; discriminate. }
  apply struct_unpack_BE_I_spec in Eu as [Hlraw Hsize].
  pose proof (file_read_length d p 4 Hp ltac:(lia)) as L1. fold tag in L1.
  pose proof (file_read_length d (p + Z.of_nat (length tag)) 4 ltac:(lia) ltac:(lia)) as L2.
  fold raw in L2.
  assert (Hltag : length tag = 4%nat) by lia.
  rewrite Hltag, Hlraw in Hv2.
  assert (Hv8 : view f2 = Some (d, p + 8)) by (rewrite Hv2; do 2 f_equal; lia).
  clear Hv2 Hr1 Hr2 Hv1.
  destruct (in_tuple tag [str "LECF"; str "LFLF"; str "ROOM"]).
  { exact (_processSubBlocks_walk_ok d _ (IH) fuel _
             (set_infile f2 (set_infile f1 self)) _ Hv8 ltac:(lia)). }
  destruct (in_tuple tag _).
  { rewrite (view_tell _ _ _ Hv). cbn [set_infile _infile].
    destruct (view_seek_SET f2 d _ p Hv8 Hp) as (f3 & Hs3 & Hv3).
    rewrite Hs3. cbn [bind].
    unfold _handleScript, _dissassembleScript. cbn [set_infile _infile].
    destruct (view_read f3 d p raw_size Hv3) as (f4 & Hr4 & Hv4). rewrite Hr4.
    cbn [bind].
    destruct (descumm _) as [[[rc out] err] |]; [| cbn; discriminate].
    destruct (negb (rc =? 0)); [cbn; discriminate |]. cbn [bind].
    destruct (_handleScript_loop _ []) as [result | e |] eqn:El; cbn [bind];
      [| exact (_handleScript_loop_Raise _ _ _ El) | exact I].
    destruct (bool_decide (tag = str "VERB")).
    - unfold set_current_scripts. cbn [set_infile _current_obj].
      destruct (_current_obj self); [| cbn; discriminate].
      cbn. eexists. split; [exact Hv4 | lia].
    - cbn. eexists. split; [exact Hv4 | lia]. }
  destruct (bool_decide (tag = str "OBCD")).
  { exact (_processSubBlocks_walk_ok d _ (IH) fuel _
             (new_current_obj (tell (_infile self))
                (set_infile f2 (set_infile f1 self))) _ Hv8 ltac:(lia)). }
  destruct (bool_decide (tag = str "OBNA")).
  { unfold _readASCIIZ. cbn [set_infile _infile].
    pose proof (_readASCIIZ_loop_view_inv d fuel f2 _ [] Hv8 ltac:(lia)) as Hl.
    destruct (_readASCIIZ_loop fuel f2 []) as [[s f] | e |];
      cbn [bind]; [| contradiction | exact I].
    unfold set_current_name. cbn [set_infile _current_obj].
    destruct (_current_obj self); [| cbn; discriminate]. cbn. exact Hl. }
  unfold isValidBlockType. rewrite Hltag. cbn [Nat.eqb negb bind].
  destruct (negb _); [cbn; discriminate |]. cbn [set_infile _infile].
  pose proof (view_seek f2 d _ (raw_size - hdr_size) SEEK_CUR Hv8) as Hs.
  rewrite file_seek_target in Hs. cbn in Hs.
  destruct (p + 8 + (raw_size - hdr_size) <? 0) eqn:E.
  - rewrite Hs. cbn. discriminate.
  - destruct Hs as (f5 & Hs5 & Hv5).
    rewrite Hs5. cbn. eexists. split; [exact Hv5 |].
    apply Z.ltb_ge in E. exact E.
Qed.

End NoAssertion.

(** X22. On a file read through decrypting streams with byte keys, at a
    position that is not negative, the assertion of [isValidBlockType]
    never fails during the walk (a tag that reaches it has four bytes), and
    when the walk completes the stream still shows the same contents, at a
    position that is not negative. *)
Theorem walk_never_fails_assertion
    (descumm : bytes -> option (Z * bytes * bytes)) (fuel : nat)
    (self : Processor) (d : bytes) (p : Z) :
  view (_infile self) = Some (d, p) -> 0 <= p ->
  _processBlock descumm fuel self <> Raise AssertionError
  /\ (forall self' : Processor,
        _processBlock descumm fuel self = Ok self' ->
        exists p' : Z, view (_infile self') = Some (d, p') /\ 0 <= p').
Proof.
  intros Hv Hp. pose proof (_processBlock_walk_ok descumm d fuel self p Hv Hp) as H.
  split.
  - intros E. rewrite E in H. now apply H.
  - intros self' E. now rewrite E in H.
Qed.

Lemma walk_never_fails_assertion_witness :
  _processBlock descumm_echo 1 (Processor_init (File (block "ZZZZ" []) 0))
    <> Raise AssertionError.
Proof.
  exact (proj1 (walk_never_fails_assertion descumm_echo 1
                  (Processor_init (File (block "ZZZZ" []) 0))
                  (block "ZZZZ" []) 0 eq_refl ltac:(lia))).
Defined.

(** ** A sub-block of size zero *)

(** An unrecognized block that declares the size 0: the skip is a seek of
    -8 bytes, back onto the header of the block. *)
Lemma zero_size_block_stays
    (descumm : bytes -> option (Z * bytes * bytes)) (fuel : nat)
    (self : Processor) (d bt rest : bytes) (q : Z) :
  view (_infile self) = Some (d, q) -> 0 <= q ->
  drop (Z.to_nat q) d = bt ++ [NUL; NUL; NUL; NUL] ++ rest ->
  length bt = 4%nat ->
  bt ∉ [str "LECF"; str "LFLF"; str "ROOM"; str "SCRP"; str "LSCR";
        str "ENCD"; str "EXCD"; str "VERB"; str "OBCD"; str "OBNA"] ->
  isValidBlockType bt = Ok true ->
  exists self' : Processor,
    _processBlock descumm (S fuel) self = Ok self'
    /\ view (_infile self') = Some (d, q).
Proof.
  intros Hv Hq Hd Hl Hnin Hvalid.
  destruct (view_read_header self d q Hv Hq) as (f & Hvf & Hh). cbv zeta in Hh.
  assert (Htag : (file_read d q 4).1 = bt).
  { unfold file_read. cbn [fst]. change (4 <? 0) with false. cbv iota.
    rewrite Hd. change (Z.to_nat 4) with 4%nat.
    rewrite take_app_length'; [reflexivity | now rewrite Hl]. }
  rewrite Htag, Hl in Hh, Hvf.
  assert (Hraw : (file_read d (q + Z.of_nat 4) 4).1 = [NUL; NUL; NUL; NUL]).
  { unfold file_read. cbn [fst]. change (4 <? 0) with false. cbv iota.
    replace (Z.to_nat (q + Z.of_nat 4)) with (Z.to_nat q + 4)%nat by lia.
    rewrite <- drop_drop, Hd, drop_app_length'; [reflexivity | now rewrite Hl]. }
  rewrite Hraw in Hh, Hvf. cbn [struct_unpack_BE_I bind] in Hh.
  change (((ord NUL * 256 + ord NUL) * 256 + ord NUL) * 256 + ord NUL) with 0 in Hh.
  rewrite (_processBlock_unrecognized descumm fuel _ _ _ _ Hh Hnin), Hvalid.
  cbn [bind negb set_infile _infile].
  pose proof (seek_CUR f (0 - 8)) as Hs. rewrite (view_tell _ _ _ Hvf), Hvf in Hs.
  destruct (_ <? 0) eqn:E; [apply Z.ltb_lt in E; cbn [length] in E; lia |].
  destruct Hs as (f' & Hf' & _ & Hv'). rewrite Hf'. cbn [bind].
  eexists. split; [reflexivity |]. cbn [set_infile _infile]. rewrite Hv'.
  do 2 f_equal. cbn [length]. lia.
Qed.

(** X23. A sub-block with an unrecognized, valid tag and the declared size
    0 is skipped by seeking back onto its own header, so the container that
    holds it as its first sub-block is never left: the walk neither returns
    nor raises. *)
Theorem zero_size_sub_block_never_ends
    (descumm : bytes -> option (Z * bytes * bytes))
    (self self1 : Processor) (block_type : bytes) (declared_size : Z)
    (d bt rest : bytes) (p : Z) :
  view (_infile self) = Some (d, p) -> 0 <= p ->
  read_header self = Ok (block_type, declared_size, self1) ->
  block_type ∈ [str "LECF"; str "LFLF"; str "ROOM"; str "OBCD"] ->
  8 < declared_size ->
  drop (Z.to_nat (p + 8)) d = bt ++ [NUL; NUL; NUL; NUL] ++ rest ->
  length bt = 4%nat ->
  bt ∉ [str "LECF"; str "LFLF"; str "ROOM"; str "SCRP"; str "LSCR";
        str "ENCD"; str "EXCD"; str "VERB"; str "OBCD"; str "OBNA"] ->
  isValidBlockType bt = Ok true ->
  forall fuel : nat, _processBlock descumm fuel self = Diverge.
Proof.
  intros Hv Hp H Hin Hsize Hd Hl Hnin Hvalid fuel.
  destruct fuel as [| fuel]; [reflexivity |].
  destruct (container_dispatch descumm fuel _ _ _ _ H Hin) as (Hpb & Hstart & _).
  cbv zeta in Hpb, Hstart. rewrite Hpb. clear Hpb.
  destruct (view_read_header self d p Hv Hp) as (f & Hvf & Hh). cbv zeta in Hh.
  rewrite H in Hh.
  destruct (struct_unpack_BE_I _) as [n | |]; cbn [bind] in Hh; try discriminate.
  injection Hh as Htag _ ->.
  assert (Hv8 : view f = Some (d, p + 8)).
  { rewrite Hvf. rewrite (view_tell _ _ _ Hv) in Hstart. do 2 f_equal.
    pose proof (view_tell _ _ _ Hvf) as Ht.
    assert (Ht' : tell f = p + 8) by (rewrite <- Hstart; now destruct (bool_decide _)).
    lia. }
  set (start := if bool_decide (block_type = str "OBCD")
                then new_current_obj (tell (_infile self)) (set_infile f self)
                else set_infile f self) in *.
  assert (Hvs : view (_infile start) = Some (d, p + 8))
    by (subst start; now destruct (bool_decide _)).
  unfold _processSubBlocks. rewrite Hstart, (view_tell _ _ _ Hv).
  assert (Hloop : forall (i m : nat) (a : Processor),
             view (_infile a) = Some (d, p + 8) ->
             _processSubBlocks_loop (_processBlock descumm m) i
               (p + 8 + (declared_size - 8)) a = Diverge).
  { induction i as [| i IH]; intros m a Ha; cbn [_processSubBlocks_loop];
      rewrite (view_tell _ _ _ Ha);
      (destruct (_ <? _) eqn:E; [| apply Z.ltb_ge in E; lia]); [reflexivity |].
    destruct m as [| m]; [reflexivity |].
    destruct (zero_size_block_stays descumm m a d bt rest (p + 8) Ha ltac:(lia)
                Hd Hl Hnin Hvalid) as (a' & Hb & Ha').
    rewrite Hb. cbn [bind]. exact (IH _ _ Ha'). }
  now rewrite Hloop.
Qed.

Lemma zero_size_sub_block_never_ends_witness :
  _processBlock descumm_echo 50
    (Processor_init (File (str "LECF" ++ be32 16 ++ str "ABCD" ++ be32 0) 0))
  = Diverge.
Proof.
  refine (zero_size_sub_block_never_ends descumm_echo
            (Processor_init (File (str "LECF" ++ be32 16 ++ str "ABCD" ++ be32 0) 0))
            (Processor_init (File (str "LECF" ++ be32 16 ++ str "ABCD" ++ be32 0) 8))
            (str "LECF") 16 (str "LECF" ++ be32 16 ++ str "ABCD" ++ be32 0)
            (str "ABCD") [] 0 eq_refl ltac:(lia) eq_refl (list_elem_of_here _ _)
            ltac:(lia) eq_refl eq_refl _ eq_refl 50%nat).
  vm_compute. intros H.
  repeat (apply elem_of_cons in H as [H | H]; [discriminate |]).
  now apply elem_of_nil in H.
Defined.
